(** * IEC 60870-5-104 APCI connection endpoint

    Shallow embedding of [hat/drivers/iec60870/apci/connection.py]:
    the [Connection] object, its reader, writer and timer callbacks, the
    ack-advance routine [_set_ack] and the client handshake [connect].

    The Python object is a record; every method is a function in a state
    and exception monad over that record.  The asyncio event loop is part
    of the state: timer handles and futures are identifiers into stores
    kept next to the object's fields, so that a handle held in
    [_waiting_ack_handles] and the timer the loop will fire are the same
    entry. *)

From Stdlib Require Import ZArith QArith List Lia String.
From stdpp Require Import base option list gmap fin_maps.

Open Scope Z_scope.

(** ** Exceptions and results *)

Inductive exn : Type :=
  | ConnectionError
  | QueueClosedError
  | QueueEmptyError
  | TimeoutError
  | ValueError (msg : string)
  | Exception (msg : string).

Inductive result (A : Type) : Type :=
  | Ok (a : A)
  | Raise (e : exn).
Arguments Ok {A} a.
Arguments Raise {A} e.

(** An awaited operation either completes (with a value or an exception)
    or leaves the caller suspended. *)
Inductive poll (A : Type) : Type :=
  | Ready (r : result A)
  | Pending.
Arguments Ready {A} r.
Arguments Pending {A}.

(** ** Frames ([common.APDUI], [common.APDUS], [common.APDUU]) *)

Definition Bytes := list Byte.byte.

Inductive ApduFunction : Type :=
  | STARTDT_ACT | STARTDT_CON
  | STOPDT_ACT | STOPDT_CON
  | TESTFR_ACT | TESTFR_CON.

Inductive APDU : Type :=
  | APDUI (ssn rsn : Z) (data : Bytes)
  | APDUS (rsn : Z)
  | APDUU (function : ApduFunction).

Definition ApduFunction_eqb (f g : ApduFunction) : bool :=
  match f, g with
  | STARTDT_ACT, STARTDT_ACT | STARTDT_CON, STARTDT_CON
  | STOPDT_ACT, STOPDT_ACT | STOPDT_CON, STOPDT_CON
  | TESTFR_ACT, TESTFR_ACT | TESTFR_CON, TESTFR_CON => true
  | _, _ => false
  end.

(** ** [aio.Queue]

    The queue of the [hat.aio] package as this module uses it: unbounded,
    closable.  [put_nowait] refuses a closed queue; items that are already
    queued stay retrievable after [close] (the writer's clean-up drains the
    send queue after closing it); [get] on an empty queue fails once the
    queue is closed and suspends the caller otherwise. *)
Module Queue.

Record t (A : Type) : Type := mk { items : list A; closed : bool }.
Arguments mk {A} items closed.
Arguments items {A} _.
Arguments closed {A} _.

Definition new {A} : t A := mk [] false.

Definition empty {A} (q : t A) : bool :=
  match items q with [] => true | _ :: _ => false end.

Definition close {A} (q : t A) : t A := mk (items q) true.

Definition put_nowait {A} (x : A) (q : t A) : result (t A) :=
  if closed q then Raise QueueClosedError
  else Ok (mk (items q ++ [x]) (closed q)).

Definition get_nowait {A} (q : t A) : result (A * t A) :=
  match items q with
  | [] => Raise QueueEmptyError
  | x :: rest => Ok (x, mk rest (closed q))
  end.

Definition get {A} (q : t A) : poll (A * t A) :=
  match items q with
  | x :: rest => Ready (Ok (x, mk rest (closed q)))
  | [] => if closed q then Ready (Raise QueueClosedError) else Pending
  end.

End Queue.

(** ** The TCP stream ([tcp.Connection])

    Of the transport only what the endpoint observes is kept: whether the
    stream is still open, and the frames written to it so far, oldest
    first.  Frames are recorded before encoding. *)
Record tcp_conn : Type := mk_tcp {
  is_open : bool;
  written : list APDU
}.

Definition tcp_write (apdu : APDU) (t : tcp_conn) : result tcp_conn :=
  if is_open t then Ok (mk_tcp true (written t ++ [apdu]))
  else Raise ConnectionError.

Definition tcp_close (t : tcp_conn) : tcp_conn := mk_tcp false (written t).

(** ** The event loop: timers and futures *)

(** Timer handles and futures are natural numbers, in the order of their
    creation. *)

(** What [call_later] was given to run. *)
Inductive callback : Type :=
  | on_response_timeout
  | on_supervisory_timeout.

Record timer : Type := mk_timer {
  delay : Q;
  action : callback;
  cancelled : bool;
  fired : bool
}.

Inductive future_state : Type :=
  | FPending
  | FResult
  | FException (e : exn).

Definition future_done (s : future_state) : bool :=
  match s with FPending => false | _ => true end.

(** An entry of the send queue: a user payload or a drain marker. *)
Inductive send_item : Type :=
  | Payload (data : Bytes)
  | Marker (f : nat).

(** ** The [Connection] object

    The fields of the Python object under their own names, followed by the
    part of the event loop the object's methods reach: the timers created
    by [call_later], the futures created by [drain], and the number of
    [notify_all] calls made on [_waiting_ack_cv]. *)
Record Connection : Type := mk_Connection {
  _conn : tcp_conn;
  _always_enabled : bool;
  _is_enabled : bool;
  _response_timeout : Q;
  _supervisory_timeout : Q;
  _test_timeout : Q;
  _send_window_size : Z;
  _receive_window_size : Z;
  _receive_queue : Queue.t Bytes;
  _send_queue : Queue.t send_item;
  _test_event : bool;
  _ssn : Z;
  _rsn : Z;
  _ack : Z;
  _w : Z;
  _supervisory_handle : option nat;
  _waiting_ack_handles : gmap Z nat;
  loop_timers : gmap nat timer;
  loop_futures : gmap nat future_state;
  cv_notified : nat
}.

(** [Connection.__init__] on a fresh event loop. *)
Definition Connection__init__ (conn : tcp_conn) (always_enabled : bool)
    (response_timeout supervisory_timeout test_timeout : Q)
    (send_window_size receive_window_size : Z) : Connection :=
  {| _conn := conn;
     _always_enabled := always_enabled;
     _is_enabled := always_enabled;
     _response_timeout := response_timeout;
     _supervisory_timeout := supervisory_timeout;
     _test_timeout := test_timeout;
     _send_window_size := send_window_size;
     _receive_window_size := receive_window_size;
     _receive_queue := Queue.new;
     _send_queue := Queue.new;
     _test_event := false;
     _ssn := 0;
     _rsn := 0;
     _ack := 0;
     _w := 0;
     _supervisory_handle := None;
     _waiting_ack_handles := ∅;
     loop_timers := ∅;
     loop_futures := ∅;
     cv_notified := 0%nat |}.

(** Field assignment. *)
Section Setters.
Variable c : Connection.

Definition upd_conn (x : tcp_conn) : Connection :=
  mk_Connection x (_always_enabled c) (_is_enabled c) (_response_timeout c)
    (_supervisory_timeout c) (_test_timeout c) (_send_window_size c)
    (_receive_window_size c) (_receive_queue c) (_send_queue c)
    (_test_event c) (_ssn c) (_rsn c) (_ack c) (_w c)
    (_supervisory_handle c) (_waiting_ack_handles c) (loop_timers c)
    (loop_futures c) (cv_notified c).

Definition upd_is_enabled (x : bool) : Connection :=
  mk_Connection (_conn c) (_always_enabled c) x (_response_timeout c)
    (_supervisory_timeout c) (_test_timeout c) (_send_window_size c)
    (_receive_window_size c) (_receive_queue c) (_send_queue c)
    (_test_event c) (_ssn c) (_rsn c) (_ack c) (_w c)
    (_supervisory_handle c) (_waiting_ack_handles c) (loop_timers c)
    (loop_futures c) (cv_notified c).

Definition upd_receive_queue (x : Queue.t Bytes) : Connection :=
  mk_Connection (_conn c) (_always_enabled c) (_is_enabled c)
    (_response_timeout c) (_supervisory_timeout c) (_test_timeout c)
    (_send_window_size c) (_receive_window_size c) x (_send_queue c)
    (_test_event c) (_ssn c) (_rsn c) (_ack c) (_w c)
    (_supervisory_handle c) (_waiting_ack_handles c) (loop_timers c)
    (loop_futures c) (cv_notified c).

Definition upd_send_queue (x : Queue.t send_item) : Connection :=
  mk_Connection (_conn c) (_always_enabled c) (_is_enabled c)
    (_response_timeout c) (_supervisory_timeout c) (_test_timeout c)
    (_send_window_size c) (_receive_window_size c) (_receive_queue c) x
    (_test_event c) (_ssn c) (_rsn c) (_ack c) (_w c)
    (_supervisory_handle c) (_waiting_ack_handles c) (loop_timers c)
    (loop_futures c) (cv_notified c).

Definition upd_test_event (x : bool) : Connection :=
  mk_Connection (_conn c) (_always_enabled c) (_is_enabled c)
    (_response_timeout c) (_supervisory_timeout c) (_test_timeout c)
    (_send_window_size c) (_receive_window_size c) (_receive_queue c)
    (_send_queue c) x (_ssn c) (_rsn c) (_ack c) (_w c)
    (_supervisory_handle c) (_waiting_ack_handles c) (loop_timers c)
    (loop_futures c) (cv_notified c).

Definition upd_ssn (x : Z) : Connection :=
  mk_Connection (_conn c) (_always_enabled c) (_is_enabled c)
    (_response_timeout c) (_supervisory_timeout c) (_test_timeout c)
    (_send_window_size c) (_receive_window_size c) (_receive_queue c)
    (_send_queue c) (_test_event c) x (_rsn c) (_ack c) (_w c)
    (_supervisory_handle c) (_waiting_ack_handles c) (loop_timers c)
    (loop_futures c) (cv_notified c).

Definition upd_rsn (x : Z) : Connection :=
  mk_Connection (_conn c) (_always_enabled c) (_is_enabled c)
    (_response_timeout c) (_supervisory_timeout c) (_test_timeout c)
    (_send_window_size c) (_receive_window_size c) (_receive_queue c)
    (_send_queue c) (_test_event c) (_ssn c) x (_ack c) (_w c)
    (_supervisory_handle c) (_waiting_ack_handles c) (loop_timers c)
    (loop_futures c) (cv_notified c).

Definition upd_ack (x : Z) : Connection :=
  mk_Connection (_conn c) (_always_enabled c) (_is_enabled c)
    (_response_timeout c) (_supervisory_timeout c) (_test_timeout c)
    (_send_window_size c) (_receive_window_size c) (_receive_queue c)
    (_send_queue c) (_test_event c) (_ssn c) (_rsn c) x (_w c)
    (_supervisory_handle c) (_waiting_ack_handles c) (loop_timers c)
    (loop_futures c) (cv_notified c).

Definition upd_w (x : Z) : Connection :=
  mk_Connection (_conn c) (_always_enabled c) (_is_enabled c)
    (_response_timeout c) (_supervisory_timeout c) (_test_timeout c)
    (_send_window_size c) (_receive_window_size c) (_receive_queue c)
    (_send_queue c) (_test_event c) (_ssn c) (_rsn c) (_ack c) x
    (_supervisory_handle c) (_waiting_ack_handles c) (loop_timers c)
    (loop_futures c) (cv_notified c).

Definition upd_supervisory_handle (x : option nat) : Connection :=
  mk_Connection (_conn c) (_always_enabled c) (_is_enabled c)
    (_response_timeout c) (_supervisory_timeout c) (_test_timeout c)
    (_send_window_size c) (_receive_window_size c) (_receive_queue c)
    (_send_queue c) (_test_event c) (_ssn c) (_rsn c) (_ack c) (_w c)
    x (_waiting_ack_handles c) (loop_timers c)
    (loop_futures c) (cv_notified c).

Definition upd_waiting_ack_handles (x : gmap Z nat) : Connection :=
  mk_Connection (_conn c) (_always_enabled c) (_is_enabled c)
    (_response_timeout c) (_supervisory_timeout c) (_test_timeout c)
    (_send_window_size c) (_receive_window_size c) (_receive_queue c)
    (_send_queue c) (_test_event c) (_ssn c) (_rsn c) (_ack c) (_w c)
    (_supervisory_handle c) x (loop_timers c)
    (loop_futures c) (cv_notified c).

Definition upd_loop_timers (x : gmap nat timer) : Connection :=
  mk_Connection (_conn c) (_always_enabled c) (_is_enabled c)
    (_response_timeout c) (_supervisory_timeout c) (_test_timeout c)
    (_send_window_size c) (_receive_window_size c) (_receive_queue c)
    (_send_queue c) (_test_event c) (_ssn c) (_rsn c) (_ack c) (_w c)
    (_supervisory_handle c) (_waiting_ack_handles c) x
    (loop_futures c) (cv_notified c).

Definition upd_loop_futures (x : gmap nat future_state) : Connection :=
  mk_Connection (_conn c) (_always_enabled c) (_is_enabled c)
    (_response_timeout c) (_supervisory_timeout c) (_test_timeout c)
    (_send_window_size c) (_receive_window_size c) (_receive_queue c)
    (_send_queue c) (_test_event c) (_ssn c) (_rsn c) (_ack c) (_w c)
    (_supervisory_handle c) (_waiting_ack_handles c) (loop_timers c)
    x (cv_notified c).

Definition upd_cv_notified (x : nat) : Connection :=
  mk_Connection (_conn c) (_always_enabled c) (_is_enabled c)
    (_response_timeout c) (_supervisory_timeout c) (_test_timeout c)
    (_send_window_size c) (_receive_window_size c) (_receive_queue c)
    (_send_queue c) (_test_event c) (_ssn c) (_rsn c) (_ack c) (_w c)
    (_supervisory_handle c) (_waiting_ack_handles c) (loop_timers c)
    (loop_futures c) x.
End Setters.

(** ** The method monad: state of the object, and Python exceptions *)

Definition M (A : Type) : Type := Connection -> result A * Connection.

Definition ret {A} (a : A) : M A := fun c => (Ok a, c).

Definition raise {A} (e : exn) : M A := fun c => (Raise e, c).

Definition bind {A B} (m : M A) (k : A -> M B) : M B :=
  fun c =>
    match m c with
    | (Ok a, c') => k a c'
    | (Raise e, c') => (Raise e, c')
    end.

Notation "x <- m ;; k" := (bind m (fun x => k))
  (at level 100, m at next level, right associativity).
Notation "m ;; k" := (bind m (fun _ => k))
  (at level 100, right associativity).

Definition self : M Connection := fun c => (Ok c, c).

Definition assign (f : Connection -> Connection) : M unit :=
  fun c => (Ok tt, f c).

(** [try: m except Exception: h] *)
Definition try_except {A} (m : M A) (h : exn -> M A) : M A :=
  fun c =>
    match m c with
    | (Ok a, c') => (Ok a, c')
    | (Raise e, c') => h e c'
    end.

(** The state a method leaves behind, whatever its outcome. *)
Definition exec {A} (m : M A) (c : Connection) : Connection := snd (m c).

(** ** Event-loop primitives *)

(** [loop.call_later(delay, callback)]: a new handle, scheduled. *)
Definition call_later (d : Q) (cb : callback) : M nat :=
  fun c =>
    let h := fresh (dom (loop_timers c)) in
    (Ok h, upd_loop_timers c (<[h := mk_timer d cb false false]> (loop_timers c))).

(** [handle.cancel()] *)
Definition cancel_timer (t : timer) : timer :=
  mk_timer (delay t) (action t) true (fired t).

Definition cancel (h : nat) : M unit :=
  assign (fun c => upd_loop_timers c (alter cancel_timer h (loop_timers c))).

(** [self._waiting_ack_cv.notify_all()] under the condition's lock. *)
Definition notify_all : M unit :=
  assign (fun c => upd_cv_notified c (S (cv_notified c))).

(** Python's [range(a, b)]: empty when [b <= a]. *)
Definition range (a b : Z) : list Z := seqZ a (b - a).

(** ** Module-level helpers *)

(** [_write_apdu(conn, apdu)]: encode and write to the stream. *)
Definition _write_apdu (conn : tcp_conn) (apdu : APDU) : result tcp_conn :=
  tcp_write apdu conn.

(** [_write_apdu(self._conn, apdu)] *)
Definition write_self (apdu : APDU) : M unit :=
  fun c =>
    match _write_apdu (_conn c) apdu with
    | Ok t => (Ok tt, upd_conn c t)
    | Raise e => (Raise e, c)
    end.

(** [self.close()]: closing the resource closes the stream it owns. *)
Definition close : M unit :=
  assign (fun c => upd_conn c (tcp_close (_conn c))).

(** ** Supervisory timer *)

Definition _start_supervisory_timeout : M unit :=
  c <- self ;;
  match _supervisory_handle c with
  | Some _ => ret tt
  | None =>
      h <- call_later (_supervisory_timeout c) on_supervisory_timeout ;;
      assign (fun c => upd_supervisory_handle c (Some h))
  end.

Definition _stop_supervisory_timeout : M unit :=
  c <- self ;;
  match _supervisory_handle c with
  | None => ret tt
  | Some h =>
      cancel h ;;
      assign (fun c => upd_supervisory_handle c None)
  end.

Definition _on_response_timeout : M unit := close.

Definition _on_supervisory_timeout : M unit :=
  assign (fun c => upd_supervisory_handle c None) ;;
  try_except
    (c <- self ;;
     write_self (APDUS (_rsn c)) ;;
     assign (fun c => upd_w c 0))
    (fun _ => ret tt).

(** ** Ack-advance *)

(** The [for ssn in ssns] loop of [_set_ack]: pop the handle, fail on the
    first sequence number that has none, cancel it otherwise. *)
Fixpoint ack_each (ssns : list Z) : M unit :=
  match ssns with
  | [] => ret tt
  | ssn :: rest =>
      c <- self ;;
      let handle := _waiting_ack_handles c !! ssn in
      assign (fun c =>
        upd_waiting_ack_handles c (delete ssn (_waiting_ack_handles c))) ;;
      match handle with
      | None => raise (Exception "received ack for unsent sequence number")
      | Some h => cancel h ;; ack_each rest
      end
  end.

(** The sequence numbers [_set_ack] walks through. *)
Definition acked_ssns (cur ack : Z) : list Z :=
  if cur <=? ack then range cur ack
  else range cur 0x8000 ++ range 0 ack.

Definition _set_ack (ack : Z) : M unit :=
  c <- self ;;
  ack_each (acked_ssns (_ack c) ack) ;;
  assign (fun c => upd_ack c ack) ;;
  notify_all.

(** ** Reader *)

Definition _process_apduu (function : ApduFunction) : M unit :=
  match function with
  | STARTDT_ACT =>
      assign (fun c => upd_is_enabled c true) ;;
      write_self (APDUU STARTDT_CON)
  | STOPDT_ACT =>
      c <- self ;;
      if negb (_always_enabled c) then
        write_self (APDUS (_rsn c)) ;;
        assign (fun c => upd_w c 0) ;;
        _stop_supervisory_timeout ;;
        assign (fun c => upd_is_enabled c false) ;;
        write_self (APDUU STOPDT_CON)
      else ret tt
  | TESTFR_ACT => write_self (APDUU TESTFR_CON)
  | TESTFR_CON => assign (fun c => upd_test_event c true)
  | STARTDT_CON | STOPDT_CON => ret tt
  end.

Definition _process_apdus (rsn : Z) : M unit := _set_ack rsn.

(** [self._receive_queue.put_nowait(data)] *)
Definition receive_queue_put (data : Bytes) : M unit :=
  fun c =>
    match Queue.put_nowait data (_receive_queue c) with
    | Ok q => (Ok tt, upd_receive_queue c q)
    | Raise e => (Raise e, c)
    end.

(** Truth value of a [bytes] object. *)
Definition nonempty (data : Bytes) : bool :=
  match data with [] => false | _ :: _ => true end.

Definition _process_apdui (ssn rsn : Z) (data : Bytes) : M unit :=
  _set_ack rsn ;;
  c <- self ;;
  if negb (ssn =? _rsn c) then
    raise (Exception "missing apdu sequence number")
  else
    assign (fun c => upd_rsn c ((_rsn c + 1) mod 0x8000)) ;;
    _start_supervisory_timeout ;;
    (if nonempty data then receive_queue_put data else ret tt) ;;
    assign (fun c => upd_w c (_w c + 1)) ;;
    c <- self ;;
    if _receive_window_size c <=? _w c then
      write_self (APDUS (_rsn c)) ;;
      assign (fun c => upd_w c 0) ;;
      _stop_supervisory_timeout
    else ret tt.

(** What [_read_apdu] gets from the stream: a complete frame, or the
    exception of a failed read or decode. *)
Inductive read_event : Type :=
  | Frame (apdu : APDU)
  | ReadError (e : exn).

(** [await _read_apdu(self._conn)]: nothing is read from a closed stream. *)
Definition _read_apdu (ev : read_event) : M APDU :=
  c <- self ;;
  if is_open (_conn c) then
    match ev with
    | Frame apdu => ret apdu
    | ReadError e => raise e
    end
  else raise ConnectionError.

(** One turn of the [while True] of [_read_loop]. *)
Definition _read_loop_body (ev : read_event) : M unit :=
  apdu <- _read_apdu ev ;;
  match apdu with
  | APDUU function => _process_apduu function
  | APDUS rsn => _process_apdus rsn
  | APDUI ssn rsn data => _process_apdui ssn rsn data
  end.

(** The [finally] clause of [_read_loop]. *)
Definition _read_loop_finally : M unit :=
  close ;;
  assign (fun c => upd_receive_queue c (Queue.close (_receive_queue c))).

(** Whether a loop goes on to its next turn or has ended. *)
Inductive loop_status : Type :=
  | Running
  | Ended.

(** One turn of [_read_loop] with its exception handling: every exception
    of the body is caught (some are logged), the [finally] clause runs and
    the task ends. *)
Definition _read_loop (ev : read_event) (c : Connection)
    : loop_status * Connection :=
  match _read_loop_body ev c with
  | (Ok _, c') => (Running, c')
  | (Raise _, c') => (Ended, exec _read_loop_finally c')
  end.

(** ** Writer *)

(** A future the loop has no record of has not been completed. *)
Definition future_is_done (c : Connection) (f : nat) : bool :=
  match loop_futures c !! f with
  | Some s => future_done s
  | None => false
  end.

Definition complete_future (f : nat) (s : future_state) : M unit :=
  assign (fun c => upd_loop_futures c (<[f := s]> (loop_futures c))).

(** Where the writer task stands after a turn: back at the top of its
    loop, suspended on the empty send queue, suspended on the send window
    with a payload in hand, or ended. *)
Inductive writer_status : Type :=
  | WTop
  | WAwaitItem
  | WAwaitWindow (asdu : Bytes)
  | WEnded.

(** The predicate given to [wait_for]. *)
Definition window_open (c : Connection) : bool :=
  Z.of_nat (size (_waiting_ack_handles c)) <? _send_window_size c.

(** The body of [_write_loop] from the [is_enabled] test to the end of
    the turn. *)
Definition _write_loop_emit (asdu : Bytes) : M unit :=
  c <- self ;;
  if negb (_is_enabled c) then ret tt
  else
    write_self (APDUI (_ssn c) (_rsn c) asdu) ;;
    assign (fun c => upd_w c 0) ;;
    _stop_supervisory_timeout ;;
    c <- self ;;
    h <- call_later (_response_timeout c) on_response_timeout ;;
    assign (fun c =>
      upd_waiting_ack_handles c (<[_ssn c := h]> (_waiting_ack_handles c))) ;;
    assign (fun c => upd_ssn c ((_ssn c + 1) mod 0x8000)).

(** [await self._waiting_ack_cv.wait_for(...)]: goes on at once when the
    predicate holds, suspends the writer otherwise.  The same function is
    the writer's resumption after a [notify_all]. *)
Definition _write_loop_wait (asdu : Bytes) : M writer_status :=
  c <- self ;;
  if window_open c then _write_loop_emit asdu ;; ret WTop
  else ret (WAwaitWindow asdu).

(** The turn of [_write_loop] for an item taken from the send queue. *)
Definition _write_loop_item (item : send_item) : M writer_status :=
  match item with
  | Marker f =>
      c <- self ;;
      (if negb (future_is_done c f) then complete_future f FResult
       else ret tt) ;;
      ret WTop
  | Payload asdu =>
      c <- self ;;
      match _waiting_ack_handles c !! _ssn c with
      | Some _ => raise (Exception "can not reuse already registered ssn")
      | None => _write_loop_wait asdu
      end
  end.

(** One turn of the [while True] of [_write_loop], from
    [await self._send_queue.get()]. *)
Definition _write_loop_body : M writer_status :=
  c <- self ;;
  match Queue.get (_send_queue c) with
  | Pending => ret WAwaitItem
  | Ready (Raise e) => raise e
  | Ready (Ok (item, q)) =>
      assign (fun c => upd_send_queue c q) ;;
      _write_loop_item item
  end.

Fixpoint cancel_each (hs : list nat) : M unit :=
  match hs with
  | [] => ret tt
  | h :: rest => cancel h ;; cancel_each rest
  end.

(** The [while not self._send_queue.empty()] loop of the clean-up; the
    fuel bounds the number of turns. *)
Fixpoint fail_queued (fuel : nat) : M unit :=
  match fuel with
  | O => ret tt
  | S fuel' =>
      c <- self ;;
      if Queue.empty (_send_queue c) then ret tt
      else
        match Queue.get_nowait (_send_queue c) with
        | Raise e => raise e
        | Ok (asdu, q) =>
            assign (fun c => upd_send_queue c q) ;;
            match asdu with
            | Marker f =>
                c <- self ;;
                if negb (future_is_done c f)
                then complete_future f (FException ConnectionError)
                else ret tt
            | Payload _ => ret tt
            end ;;
            fail_queued fuel'
        end
  end.

(** The [finally] clause of [_write_loop]. *)
Definition _write_loop_finally : M unit :=
  close ;;
  _stop_supervisory_timeout ;;
  assign (fun c => upd_send_queue c (Queue.close (_send_queue c))) ;;
  c <- self ;;
  cancel_each (map snd (map_to_list (_waiting_ack_handles c))) ;;
  fail_queued (length (Queue.items (_send_queue c))).

(** A turn of the writer with the exception handling of [_write_loop]:
    every exception of the body is caught, the [finally] clause runs and
    the task ends. *)
Definition guarded (body : M writer_status) (c : Connection)
    : writer_status * Connection :=
  match body c with
  | (Ok st, c') => (st, c')
  | (Raise _, c') => (WEnded, exec _write_loop_finally c')
  end.

(** The writer taking its next item. *)
Definition _write_loop : Connection -> writer_status * Connection :=
  guarded _write_loop_body.

(** The writer woken up while it waits for the send window. *)
Definition _write_loop_resume (asdu : Bytes)
    : Connection -> writer_status * Connection :=
  guarded (_write_loop_wait asdu).

(** ** Public operations *)

Definition send (data : Bytes) : M unit :=
  fun c =>
    match Queue.put_nowait (Payload data) (_send_queue c) with
    | Ok q => (Ok tt, upd_send_queue c q)
    | Raise QueueClosedError => (Raise ConnectionError, c)
    | Raise e => (Raise e, c)
    end.

(** [drain] up to its [await future]: the marker's future is returned. *)
Definition drain : M nat :=
  fun c =>
    let f := fresh (dom (loop_futures c)) in
    let c1 := upd_loop_futures c (<[f := FPending]> (loop_futures c)) in
    match Queue.put_nowait (Marker f) (_send_queue c1) with
    | Ok q => (Ok f, upd_send_queue c1 q)
    | Raise QueueClosedError => (Raise ConnectionError, c1)
    | Raise e => (Raise e, c1)
    end.

Definition receive (c : Connection) : poll Bytes * Connection :=
  match Queue.get (_receive_queue c) with
  | Ready (Ok (data, q)) => (Ready (Ok data), upd_receive_queue c q)
  | Ready (Raise QueueClosedError) => (Ready (Raise ConnectionError), c)
  | Ready (Raise e) => (Ready (Raise e), c)
  | Pending => (Pending, c)
  end.

(** ** Timers firing *)

Definition run_callback (cb : callback) : M unit :=
  match cb with
  | on_response_timeout => _on_response_timeout
  | on_supervisory_timeout => _on_supervisory_timeout
  end.

Definition fire_timer (t : timer) : timer :=
  mk_timer (delay t) (action t) (cancelled t) true.

(** The event loop at the due time of a handle: a cancelled handle is
    skipped, and a handle runs its callback once. *)
Definition fire (h : nat) : M unit :=
  c <- self ;;
  match loop_timers c !! h with
  | Some t =>
      if cancelled t || fired t then ret tt
      else
        assign (fun c =>
          upd_loop_timers c (alter fire_timer h (loop_timers c))) ;;
        run_callback (action t)
  | None => ret tt
  end.

(** ** Client handshake *)

(** [_wait_startdt_con] under [aio.wait_for(..., response_timeout)].

    The peer's frames come with the time of their arrival, counted from
    the start of the wait and increasing.  A frame that arrives before the
    timeout is processed; the wait is cut off with [TimeoutError] at the
    first frame that does not, or when the peer has nothing more to
    send. *)
Fixpoint _wait_startdt_con (timeout : Q) (arrivals : list (Q * read_event))
    (conn : tcp_conn) : result unit * tcp_conn :=
  match arrivals with
  | [] => (Raise TimeoutError, conn)
  | (at_time, ev) :: rest =>
      if Qle_bool timeout at_time then (Raise TimeoutError, conn)
      else
        match ev with
        | ReadError e => (Raise e, conn)
        | Frame (APDUU STARTDT_CON) => (Ok tt, conn)
        | Frame (APDUU TESTFR_ACT) =>
            match _write_apdu conn (APDUU TESTFR_CON) with
            | Ok conn' => _wait_startdt_con timeout rest conn'
            | Raise e => (Raise e, conn)
            end
        | Frame _ => _wait_startdt_con timeout rest conn
        end
  end.

(** [tcp.connect(addr)]: a fresh open stream. *)
Definition tcp_connect : tcp_conn := mk_tcp true [].

(** [connect], given what the peer sends after the stream is up.  The
    result comes with the stream as [connect] leaves it. *)
Definition connect (arrivals : list (Q * read_event))
    (response_timeout supervisory_timeout test_timeout : Q)
    (send_window_size receive_window_size : Z)
    : result Connection * tcp_conn :=
  let conn := tcp_connect in
  let attempt :=
    match _write_apdu conn (APDUU STARTDT_ACT) with
    | Ok conn1 => _wait_startdt_con response_timeout arrivals conn1
    | Raise e => (Raise e, conn)
    end in
  match attempt with
  | (Raise e, conn') => (Raise e, tcp_close conn')
  | (Ok _, conn') =>
      (Ok (Connection__init__ conn' true response_timeout
             supervisory_timeout test_timeout send_window_size
             receive_window_size),
       conn')
  end.

(** The server side: [Server._on_connection] for an accepted stream. *)
Definition _on_connection (conn : tcp_conn)
    (response_timeout supervisory_timeout test_timeout : Q)
    (send_window_size receive_window_size : Z) : Connection :=
  Connection__init__ conn false response_timeout supervisory_timeout
    test_timeout send_window_size receive_window_size.

(** ** Sequence-number intervals *)

(** The modular half-open interval [[a, r)] of the 15-bit sequence-number
    space, as the specification describes it: the [(r - a) mod 2^15]
    numbers that follow [a], each taken modulo [2^15]. *)
Definition mod_interval (a r : Z) : list Z :=
  (fun i => (a + i) mod 0x8000) <$> seqZ 0 ((r - a) mod 0x8000).

(** Distance from [a] forward to [x] around the ring. *)
Definition mod_distance (a x : Z) : Z := (x - a) mod 0x8000.

(** A 15-bit sequence number. *)
Definition seq15 (x : Z) : Prop := 0 <= x < 0x8000.

(** The handles registered for a list of sequence numbers. *)
Definition handles_of (ssns : list Z) (waiting : gmap Z nat) : list nat :=
  omap (fun ssn => waiting !! ssn) ssns.

(** ** The window invariants *)

Definition window_invariant (c : Connection) : Prop :=
  Z.of_nat (size (_waiting_ack_handles c)) <= _send_window_size c
  /\ _w c < _receive_window_size c.

(** The operations that run between two suspension points of a
    connection's tasks.  The writer's resumption carries the payload it
    was suspended with. *)
Inductive step : Connection -> Connection -> Prop :=
  | step_read ev c : step c (snd (_read_loop ev c))
  | step_write c : step c (snd (_write_loop c))
  | step_resume asdu c : step c (snd (_write_loop_resume asdu c))
  | step_supervisory c : step c (exec _on_supervisory_timeout c)
  | step_response c : step c (exec _on_response_timeout c)
  | step_fire h c : step c (exec (fire h) c)
  | step_set_ack r c : step c (exec (_set_ack r) c)
  | step_send data c : step c (exec (send data) c)
  | step_drain c : step c (exec drain c)
  | step_receive c : step c (snd (receive c))
  | step_reader_cancelled c : step c (exec _read_loop_finally c)
  | step_writer_cancelled c : step c (exec _write_loop_finally c).

(** The states a connection goes through. *)
Definition reachable (c0 c : Connection) : Prop := rtc step c0 c.

(** A closed queue stays closed: from [c] to [c'] neither queue has been
    reopened. *)
Definition queues_stay (c c' : Connection) : Prop :=
  (Queue.closed (_send_queue c) = true ->
   Queue.closed (_send_queue c') = true)
  /\ (Queue.closed (_receive_queue c) = true ->
      Queue.closed (_receive_queue c') = true).

(** A method that reopens no queue, whatever its outcome. *)
Definition keeps {A} (m : M A) : Prop :=
  forall c r c', m c = (r, c') -> queues_stay c c'.

(** [n] receives in a row, with what each of them gave. *)
Fixpoint receive_n (n : nat) (c : Connection)
    : list (poll Bytes) * Connection :=
  match n with
  | O => ([], c)
  | S n' =>
      let '(r, c1) := receive c in
      let '(rs, c2) := receive_n n' c1 in
      (r :: rs, c2)
  end.



(** The state once the supervisory timer is armed, if it was not. *)
Definition armed (c : Connection) : Connection :=
  match _supervisory_handle c with
  | Some _ => c
  | None =>
      upd_supervisory_handle
        (upd_loop_timers c
           (<[fresh (dom (loop_timers c)) :=
                mk_timer (_supervisory_timeout c) on_supervisory_timeout
                  false false]> (loop_timers c)))
        (Some (fresh (dom (loop_timers c))))
  end.
(** The state once the supervisory timer, if armed, is cancelled and
    forgotten. *)
Definition stopped (c : Connection) : Connection :=
  match _supervisory_handle c with
  | None => c
  | Some h =>
      upd_supervisory_handle
        (upd_loop_timers c (alter cancel_timer h (loop_timers c))) None
  end.

(** The timers once the supervisory timer, if armed, is cancelled. *)
Definition supervisory_cancelled (c : Connection) : gmap nat timer :=
  match _supervisory_handle c with
  | Some s => alter cancel_timer s (loop_timers c)
  | None => loop_timers c
  end.

(** Cancelling a list of handles. *)
Definition cancel_timers (hs : list nat) (T : gmap nat timer)
    : gmap nat timer :=
  foldl (fun T h => alter cancel_timer h T) T hs.

(** What the writer's clean-up does to the futures for one queued item:
    a marker whose future is not done gets the exception. *)
Definition fail_marker (F : gmap nat future_state) (item : send_item)
    : gmap nat future_state :=
  match item with
  | Marker f =>
      match F !! f with
      | Some FPending | None => <[f := FException ConnectionError]> F
      | Some _ => F
      end
  | Payload _ => F
  end.

Definition is_marker (item : send_item) : bool :=
  match item with Marker _ => true | Payload _ => false end.

(** The window invariants together with what keeps them: a positive
    receive window. *)
Definition window_state_ok (c : Connection) : Prop :=
  window_invariant c /\ 0 < _receive_window_size c.

(** [c'] has the configuration of [c], no more outstanding frames, and a
    count [w] that is the one of [c] or back to [0]. *)
Definition tame (c c' : Connection) : Prop :=
  _send_window_size c' = _send_window_size c
  /\ _receive_window_size c' = _receive_window_size c
  /\ (size (_waiting_ack_handles c') <= size (_waiting_ack_handles c))%nat
  /\ (_w c' = _w c \/ _w c' = 0).

(** ** Tester

    [_test_loop] in two steps: what it does when its sleep is over, and
    what becomes of its bounded wait for the test event.  The event, once
    set, stays set until the next probe clears it, so the wait succeeds
    exactly when the event is set at the moment the wait ends. *)

(** [self._test_event.clear()] and the probe. *)
Definition _test_loop_probe : M unit :=
  assign (fun c => upd_test_event c false) ;;
  write_self (APDUU TESTFR_ACT).

(** [await aio.wait_for(self._test_event.wait(), self._response_timeout)]
    at the end of the wait. *)
Definition _test_loop_wait : M unit :=
  c <- self ;;
  if _test_event c then ret tt else raise TimeoutError.

(** A step of [_test_loop] with its exception handling: any exception is
    logged, the [finally] clause closes the connection and the task
    ends. *)
Definition _test_loop (body : M unit) (c : Connection)
    : loop_status * Connection :=
  match body c with
  | (Ok _, c') => (Running, c')
  | (Raise _, c') => (Ended, exec close c')
  end.

(** The sequence numbers of the I-frames among some frames, in order. *)
Definition iframe_ssns (frames : list APDU) : list Z :=
  omap (fun a => match a with APDUI ssn _ _ => Some ssn | _ => None end)
    frames.


(** A timer that is scheduled and will run its callback when due. *)
Definition pending_timer (c : Connection) (h : nat) (cb : callback) : Prop :=
  exists t, loop_timers c !! h = Some t
    /\ action t = cb /\ cancelled t = false /\ fired t = false.

(** ** Vocabulary for the handshake *)

(** An arrival the wait gets to see: it comes before the timeout. *)
Definition in_time (timeout : Q) (arrival : Q * read_event) : bool :=
  negb (Qle_bool timeout (fst arrival)).

(** An arrival that neither ends the wait nor breaks it: a frame other
    than [U(STARTDT_CON)]. *)
Definition passes_by (arrival : Q * read_event) : bool :=
  match snd arrival with
  | Frame (APDUU STARTDT_CON) => false
  | Frame _ => true
  | ReadError _ => false
  end.

(** What is owed to an arrival during the wait. *)
Definition handshake_reply (arrival : Q * read_event) : list APDU :=
  match snd arrival with
  | Frame (APDUU TESTFR_ACT) => [APDUU TESTFR_CON]
  | _ => []
  end.

(** The bookkeeping of outstanding frames: [ack] and [ssn] are 15-bit
    numbers and the keys of [waiting_ack] are the modular interval
    [[ack, ssn)]. *)
Definition outstanding_ok (c : Connection) : Prop :=
  seq15 (_ack c) /\ seq15 (_ssn c)
  /\ dom (_waiting_ack_handles c)
       = list_to_set (mod_interval (_ack c) (_ssn c)).

(** The I-frames for a list of payloads, numbered consecutively from
    [ssn] round the ring, all advertising [rsn]. *)
Fixpoint numbered (ssn rsn : Z) (ps : list Bytes) : list APDU :=
  match ps with
  | [] => []
  | p :: ps' => APDUI ssn rsn p :: numbered ((ssn + 1) mod 0x8000) rsn ps'
  end.

(** The reader taking a series of frames, one turn each. *)
Definition read_all (frames : list APDU) (c : Connection) : Connection :=
  foldl (fun c f => snd (_read_loop (Frame f) c)) c frames.

(** ** Sample runs *)

Definition sample_payload : Bytes := [Byte.xaa; Byte.xbb].

(** A client after its handshake, with the default timeouts and window
    sizes. *)
Definition default_client : Connection :=
  Connection__init__ (mk_tcp true [APDUU STARTDT_ACT]) true
    (15 # 1) (10 # 1) (20 # 1) 12 8.


(** A server-side connection, as [Server._on_connection] builds it. *)
Definition default_server : Connection :=
  _on_connection (mk_tcp true []) (15 # 1) (10 # 1) (20 # 1) 12 8.

(** A client whose sequence numbers are about to wrap: three frames
    outstanding, numbered [0x7FFE], [0x7FFF] and [0]. *)
Definition wrapped_client : Connection :=
  let timers : gmap nat timer :=
    list_to_map
      ((fun h => (h, mk_timer (15 # 1) on_response_timeout false false))
         <$> [0%nat; 1%nat; 2%nat]) in
  upd_loop_timers
    (upd_waiting_ack_handles
       (upd_ssn (upd_ack default_client 0x7FFE) 1)
       (list_to_map [(0x7FFE, 0%nat); (0x7FFF, 1%nat); (0, 2%nat)]))
    timers.

(** A client that has received two payloads. *)
Definition received_two : Connection :=
  snd (_read_loop (Frame (APDUI 1 0 [Byte.x02]))
         (snd (_read_loop (Frame (APDUI 0 0 [Byte.x01])) default_client))).

(** A server whose peer has started data transfer. *)
Definition started_server : Connection :=
  exec (_process_apduu STARTDT_ACT) default_server.

(** The user sends a payload and the writer takes its turn. *)
Definition send_and_write (p : Bytes) (c : Connection) : Connection :=
  snd (_write_loop (exec (send p) c)).

(** * Properties *)

(** ** Sequence numbers *)

Section SequenceNumbers.

Lemma range_NoDup a b : NoDup (range a b).
Proof. apply NoDup_seqZ. Qed.

Lemma elem_of_range a b x : x ∈ range a b <-> a <= x < b.
Proof. unfold range. rewrite elem_of_seqZ. lia. Qed.

Lemma acked_ssns_NoDup a r : NoDup (acked_ssns a r).
Proof.
  unfold acked_ssns. destruct (Z.leb_spec a r) as [Hle|Hlt].
  - apply range_NoDup.
  - apply NoDup_app. split; [apply range_NoDup|].
    split; [|apply range_NoDup].
    intros x Hx Hx'. apply elem_of_range in Hx, Hx'. lia.
Qed.

Lemma acked_ssns_same a : acked_ssns a a = [].
Proof.
  unfold acked_ssns. rewrite Z.leb_refl. unfold range.
  apply seqZ_nil. lia.
Qed.

Lemma acked_ssns_mod_interval a r :
  seq15 a -> seq15 r -> acked_ssns a r = mod_interval a r.
Proof.
  unfold seq15, acked_ssns, mod_interval, range. intros Ha Hr.
  destruct (Z.leb_spec a r) as [Hle|Hlt].
  - rewrite (Z.mod_small (r - a)) by lia.
    replace (seqZ a (r - a)) with (Z.add a <$> seqZ 0 (r - a)).
    2:{ rewrite fmap_add_seqZ. f_equal; lia. }
    apply list_fmap_ext. intros i x Hx.
    apply lookup_seqZ in Hx. rewrite Z.mod_small; lia.
  - replace ((r - a) mod 0x8000) with ((0x8000 - a) + r).
    2:{ apply (Zmod_unique _ _ (-1)); lia. }
    rewrite seqZ_app, fmap_app by lia. f_equal.
    + replace (seqZ a (0x8000 - a)) with (Z.add a <$> seqZ 0 (0x8000 - a)).
      2:{ rewrite fmap_add_seqZ. f_equal; lia. }
      apply list_fmap_ext. intros i x Hx.
      apply lookup_seqZ in Hx. rewrite Z.mod_small; lia.
    + replace (seqZ 0 (r - 0))
        with (Z.add (a - 0x8000) <$> seqZ (0 + (0x8000 - a)) r).
      2:{ rewrite fmap_add_seqZ. f_equal; lia. }
      apply list_fmap_ext. intros i x Hx.
      apply lookup_seqZ in Hx.
      apply (Zmod_unique _ _ 1); lia.
Qed.

Lemma elem_of_mod_interval a r x :
  seq15 a ->
  x ∈ mod_interval a r <->
  seq15 x /\ mod_distance a x < mod_distance a r.
Proof.
  unfold seq15, mod_interval, mod_distance. intros Ha.
  rewrite list_elem_of_fmap. setoid_rewrite elem_of_seqZ. split.
  - intros (i & -> & Hi).
    pose proof (Z.mod_pos_bound (a + i) 0x8000 ltac:(lia)).
    pose proof (Z.mod_pos_bound (r - a) 0x8000 ltac:(lia)).
    split; [lia|].
    replace (((a + i) mod 0x8000 - a) mod 0x8000) with i; [lia|].
    rewrite Zminus_mod_idemp_l. replace (a + i - a) with i by lia.
    rewrite Z.mod_small; lia.
  - intros [Hx Hd]. exists ((x - a) mod 0x8000).
    pose proof (Z.mod_pos_bound (x - a) 0x8000 ltac:(lia)).
    split; [|lia].
    rewrite Zplus_mod_idemp_r. replace (a + (x - a)) with x by lia.
    rewrite Z.mod_small; lia.
Qed.

End SequenceNumbers.

(** ** Ack-advance *)

Section AckAdvance.

Lemma upd_waiting_timers_id c :
  upd_loop_timers (upd_waiting_ack_handles c (_waiting_ack_handles c))
    (loop_timers c) = c.
Proof. by destruct c. Qed.

Lemma cancel_timer_idemp t : cancel_timer (cancel_timer t) = cancel_timer t.
Proof. by destruct t. Qed.

Lemma handles_of_delete x l (W : gmap Z nat) :
  x ∉ l -> handles_of l (delete x W) = handles_of l W.
Proof.
  induction l as [|y l IH]; [done|]. intros Hx.
  apply not_elem_of_cons in Hx as [Hxy Hx]. simpl.
  rewrite lookup_delete_ne by done. by rewrite IH.
Qed.

Lemma handles_of_cons x h l (W : gmap Z nat) :
  W !! x = Some h -> handles_of (x :: l) W = h :: handles_of l W.
Proof. intros Hx. unfold handles_of. simpl. by rewrite Hx. Qed.

Lemma elem_of_handles_of h l (W : gmap Z nat) :
  h ∈ handles_of l W <-> exists x, x ∈ l /\ W !! x = Some h.
Proof. unfold handles_of. by rewrite list_elem_of_omap. Qed.

(** Whatever its outcome, the loop only takes entries out of
    [_waiting_ack_handles] and only touches timers that exist. *)
Lemma ack_each_frame l : forall c,
  exists r W T,
    ack_each l c = (r, upd_loop_timers (upd_waiting_ack_handles c W) T)
    /\ W ⊆ _waiting_ack_handles c
    /\ dom T = dom (loop_timers c).
Proof.
  induction l as [|x l IH]; intros c.
  - exists (Ok tt), (_waiting_ack_handles c), (loop_timers c).
    by rewrite upd_waiting_timers_id.
  - simpl. unfold bind at 1, self at 1. unfold bind at 1, assign at 1.
    destruct (_waiting_ack_handles c !! x) as [h|] eqn:Hx.
    + unfold bind at 1, cancel at 1, assign at 1.
      match goal with |- context [ack_each l ?c1] =>
        destruct (IH c1) as (r & W & T & -> & HW & HT) end.
      simpl in *. exists r, W, T. split; [done|]. split.
      * etrans; [exact HW|]. apply delete_subseteq.
      * rewrite HT. apply dom_alter_L.
    + eexists _, (delete x (_waiting_ack_handles c)), (loop_timers c).
      split; [reflexivity|]. split; [apply delete_subseteq|done].
Qed.

(** The loop succeeds when every sequence number has its handle. *)
Lemma ack_each_ok l : forall c,
  NoDup l ->
  (forall x, x ∈ l -> is_Some (_waiting_ack_handles c !! x)) ->
  exists W T,
    ack_each l c = (Ok tt, upd_loop_timers (upd_waiting_ack_handles c W) T)
    /\ (forall x, W !! x =
          if decide (x ∈ l) then None else _waiting_ack_handles c !! x)
    /\ (forall h, T !! h =
          if decide (h ∈ handles_of l (_waiting_ack_handles c))
          then cancel_timer <$> loop_timers c !! h
          else loop_timers c !! h).
Proof.
  induction l as [|x l IH]; intros c Hnd Hall.
  - exists (_waiting_ack_handles c), (loop_timers c).
    rewrite upd_waiting_timers_id. split; [done|]. split; intros ?.
    + by rewrite decide_False by apply not_elem_of_nil.
    + by rewrite decide_False by apply not_elem_of_nil.
  - apply NoDup_cons in Hnd as [Hx Hnd].
    destruct (Hall x) as [h Hh]; [left|].
    cbn [ack_each]. unfold bind at 1, self at 1. unfold bind at 1, assign at 1.
    rewrite Hh. unfold bind at 1, cancel at 1, assign at 1.
    match goal with |- context [ack_each l ?c1] =>
      destruct (IH c1) as (W & T & -> & HW & HT) end; [done| |].
    { intros y Hy. simpl. rewrite lookup_delete_ne by set_solver.
      apply Hall. by right. }
    simpl in HW, HT. exists W, T. split; [done|]. split.
    + intros y. rewrite HW. destruct (decide (y = x)) as [->|Hne].
      * rewrite (decide_True (P := x ∈ x :: l)) by apply list_elem_of_here.
        case_decide; [done|]. apply lookup_delete_eq.
      * rewrite lookup_delete_ne by done.
        repeat case_decide; set_solver.
    + intros g. rewrite HT, handles_of_delete by done.
      rewrite (handles_of_cons x h) by done.
      destruct (decide (g = h)) as [->|Hne].
      * rewrite lookup_alter_eq, (decide_True (P := h ∈ h :: _)) by apply list_elem_of_here.
        case_decide; [|done].
        destruct (loop_timers c !! h); simpl; [|done].
        by rewrite cancel_timer_idemp.
      * rewrite lookup_alter_ne by done.
        repeat case_decide; set_solver.
Qed.

(** The loop fails when one of the sequence numbers has no handle. *)
Lemma ack_each_fail l : forall c x,
  x ∈ l -> _waiting_ack_handles c !! x = None ->
  exists c',
    ack_each l c =
      (Raise (Exception "received ack for unsent sequence number"), c').
Proof.
  induction l as [|y l IH]; intros c x Hx Hnone.
  - by apply elem_of_nil in Hx.
  - simpl. unfold bind at 1, self at 1. unfold bind at 1, assign at 1.
    destruct (_waiting_ack_handles c !! y) as [h|] eqn:Hy.
    + unfold bind at 1, cancel at 1, assign at 1.
      apply (IH _ x).
      * apply elem_of_cons in Hx as [->|Hx]; [congruence|done].
      * simpl. destruct (decide (y = x)) as [->|Hne].
        -- apply lookup_delete_eq.
        -- by rewrite lookup_delete_ne.
    + by eexists.
Qed.

End AckAdvance.

(** ** The reader's way out *)

Section ReaderExit.

Lemma read_loop_finally_closed c :
  is_open (_conn (exec _read_loop_finally c)) = false
  /\ Queue.closed (_receive_queue (exec _read_loop_finally c)) = true.
Proof. done. Qed.

Lemma read_loop_raise ev c e c' :
  _read_loop_body ev c = (Raise e, c') ->
  _read_loop ev c = (Ended, exec _read_loop_finally c').
Proof. unfold _read_loop. by intros ->. Qed.

(** A frame whose [N_R] makes [_set_ack] raise ends the reader,
    whatever the state of the stream. *)
Lemma read_loop_bad_ack c r e c' apdu :
  _set_ack r c = (Raise e, c') ->
  apdu = APDUS r \/ (exists n d, apdu = APDUI n r d) ->
  exists c'', _read_loop (Frame apdu) c = (Ended, c'')
    /\ is_open (_conn c'') = false
    /\ Queue.closed (_receive_queue c'') = true.
Proof.
  intros Hack Hapdu.
  assert (exists e' d, _read_loop_body (Frame apdu) c = (Raise e', d))
    as (e' & d & Hbody).
  { unfold _read_loop_body, _read_apdu.
    unfold bind at 1. unfold bind at 1, self at 1.
    destruct (is_open (_conn c)); [|by eexists _, _].
    unfold ret at 1.
    destruct Hapdu as [->|(n & dat & ->)].
    - unfold _process_apdus. rewrite Hack. by eexists _, _.
    - unfold _process_apdui. unfold bind at 1. rewrite Hack.
      by eexists _, _. }
  eexists. split; [by eapply read_loop_raise|].
  apply read_loop_finally_closed.
Qed.

End ReaderExit.

(** ** Claims about ack-advance *)

(** C7. Ack-advance is idempotent: with the advertised [N_R] equal to the
    current [ack], [_set_ack] returns normally and every field of the
    connection ([ssn], [rsn], [ack], [w], [waiting_ack], [is_enabled], the
    two queues, and the rest) as well as every timer and future is as
    before; the only trace of the call is the [notify_all] on the
    condition. *)
Theorem set_ack_idempotent (c : Connection) :
  exists c',
    _set_ack (_ack c) c = (Ok tt, c')
    /\ c' = upd_cv_notified c (S (cv_notified c))
    /\ _ssn c' = _ssn c
    /\ _rsn c' = _rsn c
    /\ _ack c' = _ack c
    /\ _w c' = _w c
    /\ _waiting_ack_handles c' = _waiting_ack_handles c
    /\ _is_enabled c' = _is_enabled c
    /\ _receive_queue c' = _receive_queue c
    /\ _send_queue c' = _send_queue c
    /\ _conn c' = _conn c
    /\ _supervisory_handle c' = _supervisory_handle c
    /\ _test_event c' = _test_event c
    /\ loop_timers c' = loop_timers c
    /\ loop_futures c' = loop_futures c.
Proof.
  eexists. split.
  - unfold _set_ack. unfold bind at 1, self at 1.
    rewrite acked_ssns_same. reflexivity.
  - destruct c. simpl. repeat split.
Qed.

(** The two outcomes of [_set_ack], by whether every number of the
    interval has an entry. *)
Lemma set_ack_interval_cases (c : Connection) (r : Z) :
  seq15 (_ack c) -> seq15 r ->
  ((forall x, x ∈ mod_interval (_ack c) r ->
      is_Some (_waiting_ack_handles c !! x)) ->
   exists W T,
     _set_ack r c =
       (Ok tt,
        upd_cv_notified
          (upd_ack (upd_loop_timers (upd_waiting_ack_handles c W) T) r)
          (S (cv_notified c)))
     /\ (forall x, W !! x =
           if decide (x ∈ mod_interval (_ack c) r) then None
           else _waiting_ack_handles c !! x)
     /\ (forall h, T !! h =
           if decide (h ∈ handles_of (mod_interval (_ack c) r)
                            (_waiting_ack_handles c))
           then cancel_timer <$> loop_timers c !! h
           else loop_timers c !! h))
  /\ (forall x, x ∈ mod_interval (_ack c) r ->
      _waiting_ack_handles c !! x = None ->
      (exists c',
        _set_ack r c =
          (Raise (Exception "received ack for unsent sequence number"), c'))
      /\ forall apdu,
           apdu = APDUS r \/ (exists n d, apdu = APDUI n r d) ->
           exists c'', _read_loop (Frame apdu) c = (Ended, c'')
             /\ is_open (_conn c'') = false
             /\ Queue.closed (_receive_queue c'') = true).
Proof.
  intros Ha Hr.
  rewrite <- (acked_ssns_mod_interval (_ack c) r) by done. split.
  - intros Hall.
    destruct (ack_each_ok _ c (acked_ssns_NoDup (_ack c) r) Hall)
      as (W & T & Hrun & HW & HT).
    exists W, T. split; [|done].
    unfold _set_ack. unfold bind at 1, self at 1.
    unfold bind at 1. rewrite Hrun. reflexivity.
  - intros x Hx Hnone.
    destruct (ack_each_fail _ c x Hx Hnone) as [c' Hrun].
    assert (_set_ack r c =
      (Raise (Exception "received ack for unsent sequence number"), c'))
      as Hset.
    { unfold _set_ack. unfold bind at 1, self at 1.
      unfold bind at 1. by rewrite Hrun. }
    split; [by exists c'|].
    intros apdu Hapdu. by eapply read_loop_bad_ack.
Qed.

(** C1. Ack-advance with advertised [N_R = r] and current [ack = a]: the
    sequence numbers [_set_ack] walks through are the modular half-open
    interval [[a, r)], which is [a, ..., r-1] when [r >= a], wraps through
    [0x7FFF] and [0] when [r < a], and is empty when [r = a].  When each
    of them has an entry in [waiting_ack], the call returns normally, each
    entry is removed and its timer cancelled, nothing else is removed or
    cancelled, [ack] is [r] and the condition has been notified.  When one
    of them has no entry, the call raises, and the reader that made the
    call, for an S- or an I-frame, ends with the stream and the receive
    queue closed. *)
Theorem set_ack_interval (c : Connection) (r : Z) :
  seq15 (_ack c) -> seq15 r ->
  let a := _ack c in
  let ssns := mod_interval a r in
  acked_ssns a r = ssns
  /\ (a <= r -> ssns = seqZ a (r - a))
  /\ (r < a -> ssns = seqZ a (0x8000 - a) ++ seqZ 0 r)
  /\ (r = a -> ssns = [])
  /\ ((forall x, x ∈ ssns -> is_Some (_waiting_ack_handles c !! x)) ->
      exists c',
        _set_ack r c = (Ok tt, c')
        /\ (forall x, _waiting_ack_handles c' !! x =
              if decide (x ∈ ssns) then None
              else _waiting_ack_handles c !! x)
        /\ (forall h, loop_timers c' !! h =
              if decide (h ∈ handles_of ssns (_waiting_ack_handles c))
              then cancel_timer <$> loop_timers c !! h
              else loop_timers c !! h)
        /\ _ack c' = r
        /\ cv_notified c' = S (cv_notified c))
  /\ (forall x, x ∈ ssns -> _waiting_ack_handles c !! x = None ->
      (exists c',
        _set_ack r c =
          (Raise (Exception "received ack for unsent sequence number"), c'))
      /\ forall apdu,
           apdu = APDUS r \/ (exists n d, apdu = APDUI n r d) ->
           exists c'', _read_loop (Frame apdu) c = (Ended, c'')
             /\ is_open (_conn c'') = false
             /\ Queue.closed (_receive_queue c'') = true).
Proof.
  intros Ha Hr a ssns.
  assert (acked_ssns a r = ssns) as Heq
    by (by apply acked_ssns_mod_interval).
  destruct (set_ack_interval_cases c r Ha Hr) as [Hok Hfail].
  split; [done|].
  split; [|split; [|split; [|split]]].
  - intros Hle. rewrite <- Heq. unfold acked_ssns, range.
    by destruct (Z.leb_spec a r); [|lia].
  - intros Hlt. rewrite <- Heq. unfold acked_ssns, range.
    destruct (Z.leb_spec a r); [lia|]. by rewrite Z.sub_0_r.
  - intros ->. rewrite <- Heq. apply acked_ssns_same.
  - intros Hall. destruct (Hok Hall) as (W & T & Hrun & HW & HT).
    eexists. split; [exact Hrun|]. by repeat split.
  - exact Hfail.
Qed.

(** C9. In a state whose [waiting_ack] keys are exactly the modular
    interval [[ack, ssn)], an advertised [N_R] outside the closed modular
    interval [[ack, ssn]] (further from [ack] around the ring than [ssn]
    is) makes [_set_ack] raise the ack-for-unsent error, and the reader
    that made the call ends with the stream and the receive queue
    closed. *)
Theorem ack_beyond_window_rejected (c : Connection) (r : Z) :
  seq15 (_ack c) -> seq15 (_ssn c) -> seq15 r ->
  dom (_waiting_ack_handles c)
    = list_to_set (mod_interval (_ack c) (_ssn c)) ->
  ~ mod_distance (_ack c) r <= mod_distance (_ack c) (_ssn c) ->
  (exists c',
     _set_ack r c =
       (Raise (Exception "received ack for unsent sequence number"), c'))
  /\ forall apdu,
       apdu = APDUS r \/ (exists n d, apdu = APDUI n r d) ->
       exists c'', _read_loop (Frame apdu) c = (Ended, c'')
         /\ is_open (_conn c'') = false
         /\ Queue.closed (_receive_queue c'') = true.
Proof.
  intros Ha Hs Hr Hkeys Hout.
  assert (_ssn c ∈ mod_interval (_ack c) r) as Hin.
  { apply elem_of_mod_interval; [done|]. split; [done|lia]. }
  assert (_waiting_ack_handles c !! _ssn c = None) as Hnone.
  { apply not_elem_of_dom. rewrite Hkeys, elem_of_list_to_set.
    rewrite elem_of_mod_interval by done. lia. }
  destruct (set_ack_interval_cases c r Ha Hr) as [_ Hfail].
  by apply (Hfail (_ssn c)).
Qed.

(** ** What ack-advance leaves alone *)

Section AckFrame.

(** The state [_set_ack] leaves behind differs from the one it found in
    [waiting_ack], the timers, and on success [ack] and the count of
    notifications; [waiting_ack] has only lost entries. *)
Lemma set_ack_frame r c :
  exists res W T,
    _set_ack r c =
      (res,
       match res with
       | Ok _ =>
           upd_cv_notified
             (upd_ack (upd_loop_timers (upd_waiting_ack_handles c W) T) r)
             (S (cv_notified c))
       | Raise _ => upd_loop_timers (upd_waiting_ack_handles c W) T
       end)
    /\ W ⊆ _waiting_ack_handles c
    /\ dom T = dom (loop_timers c).
Proof.
  destruct (ack_each_frame (acked_ssns (_ack c) r) c)
    as (res & W & T & Hrun & HW & HT).
  unfold _set_ack. unfold bind at 1, self at 1. unfold bind at 1.
  rewrite Hrun. destruct res as [[]|e].
  - exists (Ok tt), W, T. by split.
  - exists (Raise e), W, T. by split.
Qed.

End AckFrame.

(** Unfolding of the monad and of the straight-line helpers. *)
Ltac step_through :=
  unfold _start_supervisory_timeout, _stop_supervisory_timeout,
    receive_queue_put, write_self, _write_apdu, tcp_write, call_later,
    cancel, notify_all, close, complete_future,
    bind, self, assign, ret, raise, try_except, exec;
  simpl.

(** ** Stepping through a method *)

Section MethodSteps.

Lemma bind_ok {A B} (m : M A) (k : A -> M B) c a c' :
  m c = (Ok a, c') -> bind m k c = k a c'.
Proof. unfold bind. by intros ->. Qed.
Lemma bind_raise {A B} (m : M A) (k : A -> M B) c e c' :
  m c = (Raise e, c') -> bind m k c = (Raise e, c').
Proof. unfold bind. by intros ->. Qed.
Lemma bind_self {B} (k : Connection -> M B) c : bind self k c = k c c.
Proof. done. Qed.
Lemma bind_assign {B} f (k : unit -> M B) c : bind (assign f) k c = k tt (f c).
Proof. done. Qed.
Lemma start_supervisory_eq c : _start_supervisory_timeout c = (Ok tt, armed c).
Proof.
  unfold _start_supervisory_timeout, armed. rewrite bind_self.
  destruct (_supervisory_handle c); [done|].
  unfold call_later. unfold bind, assign. done.
Qed.
Lemma stop_supervisory_eq c : _stop_supervisory_timeout c = (Ok tt, stopped c).
Proof.
  unfold _stop_supervisory_timeout, stopped. rewrite bind_self.
  destruct (_supervisory_handle c); [|done].
  unfold cancel. rewrite bind_assign. done.
Qed.
Lemma write_self_open apdu c :
  is_open (_conn c) = true ->
  write_self apdu c = (Ok tt, upd_conn c (mk_tcp true (written (_conn c) ++ [apdu]))).
Proof. intros Ho. unfold write_self, _write_apdu, tcp_write. by rewrite Ho. Qed.
Lemma receive_queue_put_open data c :
  Queue.closed (_receive_queue c) = false ->
  receive_queue_put data c =
    (Ok tt, upd_receive_queue c (Queue.mk (Queue.items (_receive_queue c) ++ [data]) false)).
Proof. intros Hq. unfold receive_queue_put, Queue.put_nowait. by rewrite Hq. Qed.


Lemma bind_ret {A B} (a : A) (k : A -> M B) c : bind (ret a) k c = k a c.
Proof. done. Qed.
Lemma armed_fields c :
  _conn (armed c) = _conn c /\ _receive_queue (armed c) = _receive_queue c
  /\ _rsn (armed c) = _rsn c /\ _w (armed c) = _w c
  /\ _receive_window_size (armed c) = _receive_window_size c
  /\ _ack (armed c) = _ack c
  /\ _waiting_ack_handles (armed c) = _waiting_ack_handles c
  /\ cv_notified (armed c) = cv_notified c
  /\ _ssn (armed c) = _ssn c /\ _is_enabled (armed c) = _is_enabled c
  /\ _send_queue (armed c) = _send_queue c
  /\ loop_futures (armed c) = loop_futures c.
Proof. unfold armed. by destruct (_supervisory_handle c). Qed.

Lemma armed_handle c :
  _supervisory_handle (armed c) =
    Some match _supervisory_handle c with
         | Some h => h
         | None => fresh (dom (loop_timers c))
         end
  /\ loop_timers (armed c) =
      match _supervisory_handle c with
      | Some _ => loop_timers c
      | None =>
          <[fresh (dom (loop_timers c)) :=
              mk_timer (_supervisory_timeout c) on_supervisory_timeout
                false false]> (loop_timers c)
      end.
Proof.
  unfold armed. destruct (_supervisory_handle c) eqn:E; [|done].
  by rewrite E.
Qed.

Lemma stopped_fields c :
  _conn (stopped c) = _conn c /\ _receive_queue (stopped c) = _receive_queue c
  /\ _rsn (stopped c) = _rsn c /\ _w (stopped c) = _w c
  /\ _ack (stopped c) = _ack c
  /\ _waiting_ack_handles (stopped c) = _waiting_ack_handles c
  /\ cv_notified (stopped c) = cv_notified c
  /\ _ssn (stopped c) = _ssn c /\ _is_enabled (stopped c) = _is_enabled c
  /\ _send_queue (stopped c) = _send_queue c
  /\ loop_futures (stopped c) = loop_futures c
  /\ _supervisory_handle (stopped c) = None
  /\ loop_timers (stopped c) = supervisory_cancelled c.
Proof.
  unfold stopped, supervisory_cancelled.
  destruct (_supervisory_handle c) eqn:E; [done|]. by rewrite E.
Qed.

Lemma armed_config c :
  _send_window_size (armed c) = _send_window_size c
  /\ _receive_window_size (armed c) = _receive_window_size c
  /\ _waiting_ack_handles (armed c) = _waiting_ack_handles c
  /\ _w (armed c) = _w c
  /\ _conn (armed c) = _conn c.
Proof. unfold armed. by destruct (_supervisory_handle c). Qed.

Lemma stopped_config c :
  _send_window_size (stopped c) = _send_window_size c
  /\ _receive_window_size (stopped c) = _receive_window_size c
  /\ _waiting_ack_handles (stopped c) = _waiting_ack_handles c
  /\ _w (stopped c) = _w c.
Proof. unfold stopped. by destruct (_supervisory_handle c). Qed.

Lemma receive_queue_put_frame data c r c' :
  receive_queue_put data c = (r, c') ->
  exists q, c' = upd_receive_queue c q.
Proof.
  unfold receive_queue_put.
  destruct (Queue.put_nowait data (_receive_queue c)) as [q|e];
    intros [= <- <-].
  - by exists q.
  - exists (_receive_queue c). by destruct c.
Qed.

End MethodSteps.

(** ** Claims about the reader *)

(** C2. The reader's handling of an I-frame [I(ssn, rsn, data)], on an
    open stream and an open receive queue, in the order of its steps:
    - ack-advance with the frame's [N_R] comes first: when it raises, the
      handling raises the same exception and nothing else has happened;
    - then the frame's [N_S] is compared with the current [rsn]: when they
      differ the handling raises and the state is the one ack-advance
      left;
    - otherwise the handling returns normally and, from the state
      ack-advance left: [rsn] has advanced by one modulo [2^15]; the
      supervisory timer has been armed with the supervisory timeout
      unless one was armed already; the payload is at the end of the
      receive queue if and only if it is non-empty; [w] has been
      incremented; and exactly when the incremented [w] has reached
      [receive_window_size], [S(rsn)] with the advanced [rsn] has been
      written, [w] is back to [0] and the supervisory timer is cancelled
      and forgotten. *)
Theorem process_apdui_steps (c : Connection) (ssn rsn : Z) (data : Bytes) :
  is_open (_conn c) = true ->
  Queue.closed (_receive_queue c) = false ->
  (forall e c1,
     _set_ack rsn c = (Raise e, c1) ->
     _process_apdui ssn rsn data c = (Raise e, c1))
  /\ (forall c1,
     _set_ack rsn c = (Ok tt, c1) ->
     (ssn <> _rsn c ->
      _process_apdui ssn rsn data c =
        (Raise (Exception "missing apdu sequence number"), c1))
     /\ (ssn = _rsn c ->
      let full := _receive_window_size c <=? _w c + 1 in
      let rsn' := (_rsn c + 1) mod 0x8000 in
      let h :=
        match _supervisory_handle c with
        | Some h => h
        | None => fresh (dom (loop_timers c1))
        end in
      let armed :=
        match _supervisory_handle c with
        | Some _ => loop_timers c1
        | None =>
            <[h := mk_timer (_supervisory_timeout c) on_supervisory_timeout
                     false false]> (loop_timers c1)
        end in
      exists c',
        _process_apdui ssn rsn data c = (Ok tt, c')
        /\ _rsn c' = rsn'
        /\ Queue.items (_receive_queue c') =
             Queue.items (_receive_queue c)
               ++ (if nonempty data then [data] else [])
        /\ _w c' = (if full then 0 else _w c + 1)
        /\ written (_conn c') =
             written (_conn c) ++ (if full then [APDUS rsn'] else [])
        /\ _supervisory_handle c' = (if full then None else Some h)
        /\ loop_timers c' =
             (if full then alter cancel_timer h armed else armed)
        /\ _ack c' = _ack c1
        /\ _waiting_ack_handles c' = _waiting_ack_handles c1
        /\ cv_notified c' = cv_notified c1
        /\ _ssn c' = _ssn c
        /\ _is_enabled c' = _is_enabled c
        /\ _send_queue c' = _send_queue c
        /\ loop_futures c' = loop_futures c
        /\ is_open (_conn c') = true
        /\ Queue.closed (_receive_queue c') = false)).
Proof.
  intros Hopen Hq. split.
  - intros e c1 Hset. unfold _process_apdui. by apply bind_raise.
  - intros c1 Hset.
    destruct (set_ack_frame rsn c) as (res & W & T & Hf & HW & HT).
    rewrite Hset in Hf. injection Hf as <- Hc1.
    assert (_conn c1 = _conn c /\ _receive_queue c1 = _receive_queue c
            /\ _rsn c1 = _rsn c /\ _w c1 = _w c
            /\ _receive_window_size c1 = _receive_window_size c
            /\ _supervisory_handle c1 = _supervisory_handle c
            /\ _supervisory_timeout c1 = _supervisory_timeout c
            /\ _ssn c1 = _ssn c /\ _is_enabled c1 = _is_enabled c
            /\ _send_queue c1 = _send_queue c
            /\ loop_futures c1 = loop_futures c)
      as (Ec & Eq & Er & Ew & Ek & Eh & Et & Es & Ee & Esq & Ef)
      by (by rewrite Hc1).
    clear Hc1 HW HT W T.
    rewrite <- Ec in Hopen. rewrite <- Eq in Hq.
    rewrite <- Er, <- Ew, <- Ek, <- Eh, <- Et, <- Es, <- Ee, <- Esq, <- Ef,
      <- Ec, <- Eq.
    clear Ec Eq Er Ew Ek Eh Et Es Ee Esq Ef.
    split.
    + intros Hne. unfold _process_apdui. rewrite (bind_ok _ _ _ _ _ Hset).
      rewrite bind_self. by destruct (Z.eqb_spec ssn (_rsn c1)).
    + intros ->. unfold _process_apdui. rewrite (bind_ok _ _ _ _ _ Hset).
      rewrite bind_self, Z.eqb_refl. cbn [negb].
      rewrite bind_assign.
      rewrite (bind_ok _ _ _ _ _ (start_supervisory_eq _)).
      set (d1 := armed (upd_rsn c1 ((_rsn c1 + 1) mod 0x8000))).
      destruct (armed_fields (upd_rsn c1 ((_rsn c1 + 1) mod 0x8000)))
        as (Ac & Aq & Ar & Aw & Ak & Aa & AW & An & As & Ae & Asq & Af).
      fold d1 in Ac, Aq, Ar, Aw, Ak, Aa, AW, An, As, Ae, Asq, Af.
      simpl in Ac, Aq, Ar, Aw, Ak, Aa, AW, An, As, Ae, Asq, Af.
      destruct (armed_handle (upd_rsn c1 ((_rsn c1 + 1) mod 0x8000)))
        as (Ah & AT).
      fold d1 in Ah, AT. simpl in Ah, AT.
      clearbody d1.
      assert ((if nonempty data then receive_queue_put data else ret tt) d1
              = (Ok tt,
                 if nonempty data
                 then upd_receive_queue d1
                        (Queue.mk (Queue.items (_receive_queue d1) ++ [data])
                           false)
                 else d1)) as Hput.
      { destruct (nonempty data); [|done].
        apply receive_queue_put_open. by rewrite Aq. }
      rewrite (bind_ok _ _ _ _ _ Hput). clear Hput.
      rewrite bind_assign, bind_self.
      destruct (nonempty data) eqn:Hd;
        cbn [_receive_window_size _w _rsn upd_w upd_receive_queue];
        rewrite Ak, Aw, Ar;
        destruct (_receive_window_size c1 <=? _w c1 + 1) eqn:Hfull;
        cbv beta iota.
      1,3: match goal with |- context [bind (write_self ?a) _ ?d] =>
             let Ho := fresh "Ho" in
             assert (is_open (_conn d) = true) as Ho
               by (cbn [_conn upd_w upd_receive_queue]; by rewrite Ac);
             rewrite (bind_ok _ _ _ _ _ (write_self_open a d Ho));
             clear Ho
           end;
           rewrite bind_assign, stop_supervisory_eq;
           match goal with |- context [stopped ?d] =>
             destruct (stopped_fields d)
               as (Sc & Sq & Sr & Sw & Sa & SW & Sn & Ss & Se & Ssq & Sf
                   & Sh & ST);
             set (d' := stopped d) in *; clearbody d';
             unfold supervisory_cancelled in ST;
             simpl in Sc, Sq, Sr, Sw, Sa, SW, Sn, Ss, Se, Ssq, Sf, ST;
             rewrite Ah in ST
           end;
           (eexists; split; [reflexivity|]);
           rewrite ?Sc, ?Sq, ?Sr, ?Sw, ?Sa, ?SW, ?Sn, ?Ss, ?Se, ?Ssq, ?Sf,
             ?Sh, ?ST; simpl;
           rewrite ?Ac, ?Aq, ?Ar, ?Aa, ?AW, ?An, ?As, ?Ae, ?Asq, ?Af, ?AT,
             ?Hopen, ?Hq, ?app_nil_r;
           split_and!; try done;
           by destruct (_supervisory_handle c1).
      all: unfold ret; (eexists; split; [reflexivity|]); simpl;
           rewrite ?Ac, ?Aq, ?Ar, ?Aw, ?Aa, ?AW, ?An, ?As, ?Ae, ?Asq, ?Af,
             ?Ah, ?AT, ?Hopen, ?Hq, ?app_nil_r;
           split_and!; try done;
           by destruct (_supervisory_handle c1).
Qed.

(** ** The writer's turn for a payload *)

Section WriterTurn.

Lemma dom_supervisory_cancelled c :
  dom (supervisory_cancelled c) = dom (loop_timers c).
Proof.
  unfold supervisory_cancelled.
  destruct (_supervisory_handle c); [apply dom_alter_L|done].
Qed.



(** The state after an emission. *)
Lemma write_loop_wait_emits asdu c :
  window_open c = true -> _is_enabled c = true ->
  is_open (_conn c) = true ->
  let h := fresh (dom (loop_timers c)) in
  _write_loop_wait asdu c =
    (Ok WTop,
     upd_ssn
       (upd_waiting_ack_handles
          (upd_loop_timers
             (upd_supervisory_handle
                (upd_w
                   (upd_conn c
                      (mk_tcp true
                         (written (_conn c)
                            ++ [APDUI (_ssn c) (_rsn c) asdu])))
                   0)
                None)
             (<[h := mk_timer (_response_timeout c) on_response_timeout
                       false false]> (supervisory_cancelled c)))
          (<[_ssn c := h]> (_waiting_ack_handles c)))
       ((_ssn c + 1) mod 0x8000)).
Proof.
  intros H He Ho h. unfold _write_loop_wait, _write_loop_emit.
  unfold bind at 1, self at 1. rewrite H.
  unfold bind at 1. unfold bind at 1, self at 1. rewrite He. simpl.
  step_through. rewrite Ho. simpl.
  unfold h, supervisory_cancelled.
  destruct (_supervisory_handle c) as [s|] eqn:Hs; simpl.
  - by rewrite dom_alter_L.
  - destruct c; simpl in *; by subst.
Qed.


End WriterTurn.

(** ** The writer's clean-up *)

Section WriterExit.

Lemma cancel_each_eq hs : forall c,
  cancel_each hs c =
    (Ok tt, upd_loop_timers c (cancel_timers hs (loop_timers c))).
Proof.
  induction hs as [|h hs IH]; intros c.
  - by destruct c.
  - simpl. unfold bind at 1, cancel at 1, assign at 1. by rewrite IH.
Qed.

Lemma fail_queued_eq fuel : forall c,
  (length (Queue.items (_send_queue c)) <= fuel)%nat ->
  fail_queued fuel c =
    (Ok tt,
     upd_loop_futures
       (upd_send_queue c (Queue.mk [] (Queue.closed (_send_queue c))))
       (foldl fail_marker (loop_futures c) (Queue.items (_send_queue c)))).
Proof.
  induction fuel as [|fuel IH]; intros c Hlen.
  - destruct c as [? ? ? ? ? ? ? ? ? [items cl] ?]; simpl in *.
    destruct items; simpl in *; [done|lia].
  - simpl. unfold bind at 1, self at 1. unfold Queue.empty, Queue.get_nowait.
    destruct (Queue.items (_send_queue c)) as [|item items] eqn:Hitems.
    + unfold ret. f_equal. destruct c as [? ? ? ? ? ? ? ? ? [its cl] ?].
      simpl in *. by subst.
    + unfold bind at 1, assign at 1. unfold bind at 1.
      destruct item as [data|f]; simpl.
      * rewrite IH by (simpl in *; lia). done.
      * unfold bind at 1, self at 1, future_is_done. simpl.
        destruct (loop_futures c !! f) as [[| |e]|] eqn:Hf; simpl;
          rewrite IH by (simpl in *; lia); simpl; by rewrite ?Hf.
Qed.

(** The clean-up always completes, and the state it leaves. *)
Lemma write_loop_finally_eq c :
  _write_loop_finally c =
    (Ok tt,
     upd_loop_futures
       (upd_send_queue
          (upd_loop_timers
             (upd_supervisory_handle
                (upd_conn c (tcp_close (_conn c))) None)
             (cancel_timers (map snd (map_to_list (_waiting_ack_handles c)))
                (supervisory_cancelled c)))
          (Queue.mk [] true))
       (foldl fail_marker (loop_futures c) (Queue.items (_send_queue c)))).
Proof.
  unfold _write_loop_finally, supervisory_cancelled.
  unfold bind at 1, close at 1, assign at 1.
  unfold bind at 1, _stop_supervisory_timeout at 1.
  unfold bind at 1, self at 1. simpl.
  destruct (_supervisory_handle c) as [s|] eqn:Hs.
  - unfold bind at 1, cancel at 1, assign at 1. unfold assign at 1.
    unfold bind at 1, assign at 1. unfold bind at 1, self at 1.
    unfold bind at 1. rewrite cancel_each_eq. simpl.
    rewrite fail_queued_eq by done. done.
  - unfold ret at 1.
    unfold bind at 1, assign at 1. unfold bind at 1, self at 1.
    unfold bind at 1. rewrite cancel_each_eq. simpl.
    rewrite fail_queued_eq by done. simpl.
    do 2 f_equal. destruct c; simpl in *; by subst.
Qed.

End WriterExit.

(** ** The writer's guard against a registered [ssn] *)


(** ** Claims about the writer *)


(** ** A window as large as the sequence-number space *)

Section WideWindow.



End WideWindow.


(** ** A disabled endpoint writes no payload *)

Section Disabled.








End Disabled.

(** ** Claims about STOPDT *)


(** ** What the writer's clean-up does to queued items *)

Section QueuedItems.

Lemma fail_marker_done F item f :
  (exists s, F !! f = Some s /\ future_done s = true) ->
  fail_marker F item !! f = F !! f.
Proof.
  intros (s & Hs & Hd). destruct item as [data|g]; [done|]. simpl.
  destruct (decide (g = f)) as [->|Hne].
  - rewrite Hs. by destruct s.
  - destruct (F !! g) as [[| |e]|]; by rewrite ?lookup_insert_ne.
Qed.

Lemma fail_markers_done items : forall F f,
  (exists s, F !! f = Some s /\ future_done s = true) ->
  foldl fail_marker F items !! f = F !! f.
Proof.
  induction items as [|item items IH]; intros F f Hd; [done|].
  simpl. rewrite IH; [by apply fail_marker_done|].
  rewrite fail_marker_done by done. exact Hd.
Qed.

Lemma fail_markers_absent items : forall F f,
  Marker f ∉ items ->
  foldl fail_marker F items !! f = F !! f.
Proof.
  induction items as [|item items IH]; intros F f Hf; [done|].
  apply not_elem_of_cons in Hf as [Hne Hf]. simpl. rewrite IH by done.
  destruct item as [data|g]; [done|]. simpl.
  assert (g <> f) by congruence.
  destruct (F !! g) as [[| |e]|]; by rewrite ?lookup_insert_ne.
Qed.

Lemma fail_markers_pending items : forall F f,
  Marker f ∈ items ->
  (forall s, F !! f = Some s -> future_done s = false) ->
  foldl fail_marker F items !! f = Some (FException ConnectionError).
Proof.
  induction items as [|item items IH]; intros F f Hf Hp.
  - by apply elem_of_nil in Hf.
  - simpl. destruct item as [data|g].
    + apply elem_of_cons in Hf as [Heq|Hf]; [done|]. by apply IH.
    + destruct (decide (g = f)) as [->|Hne].
      * assert (fail_marker F (Marker f) !! f
                = Some (FException ConnectionError)) as Hnow.
        { simpl. destruct (F !! f) as [s|] eqn:Hs.
          - specialize (Hp s eq_refl). destruct s; [|done..].
            apply lookup_insert_eq.
          - apply lookup_insert_eq. }
        rewrite fail_markers_done; [done|].
        by exists (FException ConnectionError).
      * apply elem_of_cons in Hf as [Heq|Hf]; [congruence|].
        apply IH; [done|]. intros s. simpl.
        destruct (F !! g) as [[| |e]|]; rewrite ?lookup_insert_ne by done;
          apply Hp.
Qed.

Lemma fail_markers_payloads items : forall F,
  foldl fail_marker F items = foldl fail_marker F (List.filter is_marker items).
Proof.
  induction items as [|item items IH]; intros F; [done|].
  destruct item as [data|g]; simpl; apply IH.
Qed.

End QueuedItems.

(** ** Claims about the writer's exit *)

(** C10. The clean-up of the ending write loop always completes.  It
    leaves the send queue empty and closed.  Every drain marker still in
    the queue whose future is pending has that future completed with
    [ConnectionError]; the futures of no other caller are touched.  A
    user payload still in the queue leaves no trace: the state after the
    clean-up is the one it would be had the payloads never been queued,
    nothing is written to the stream for them and no future is completed
    for them. *)
Theorem write_loop_exit_queue (c : Connection) :
  exists c',
    _write_loop_finally c = (Ok tt, c')
    /\ Queue.items (_send_queue c') = []
    /\ Queue.closed (_send_queue c') = true
    /\ (forall f,
          Marker f ∈ Queue.items (_send_queue c) ->
          future_is_done c f = false ->
          loop_futures c' !! f = Some (FException ConnectionError))
    /\ (forall f,
          Marker f ∉ Queue.items (_send_queue c) ->
          loop_futures c' !! f = loop_futures c !! f)
    /\ (forall f,
          future_is_done c f = true ->
          loop_futures c' !! f = loop_futures c !! f)
    /\ c' = exec _write_loop_finally
              (upd_send_queue c
                 (Queue.mk (List.filter is_marker (Queue.items (_send_queue c)))
                    (Queue.closed (_send_queue c))))
    /\ written (_conn c') = written (_conn c)
    /\ _receive_queue c' = _receive_queue c.
Proof.
  eexists. split; [apply write_loop_finally_eq|]. simpl.
  split_and!; try done.
  - intros f Hf Hp. apply fail_markers_pending; [done|].
    intros s Hs. unfold future_is_done in Hp. by rewrite Hs in Hp.
  - intros f Hf. by apply fail_markers_absent.
  - intros f Hd. apply fail_markers_done. unfold future_is_done in Hd.
    destruct (loop_futures c !! f) as [s|]; [by exists s|done].
  - unfold exec. rewrite write_loop_finally_eq. simpl.
    by rewrite <- fail_markers_payloads.
Qed.

(** ** Receiving from a closed connection *)

Section ClosedReceive.

Lemma receive_n_drained k : forall c,
  Queue.items (_receive_queue c) = [] ->
  Queue.closed (_receive_queue c) = true ->
  receive_n k c = (replicate k (Ready (Raise ConnectionError)), c).
Proof.
  induction k as [|k IH]; intros c Hi Hc; [done|].
  simpl. unfold receive, Queue.get. rewrite Hi, Hc.
  by rewrite IH.
Qed.

Lemma receive_n_queued items : forall c k,
  Queue.items (_receive_queue c) = items ->
  Queue.closed (_receive_queue c) = true ->
  receive_n (length items + k) c =
    (((fun p => Ready (Ok p)) <$> items)
       ++ replicate k (Ready (Raise ConnectionError)),
     upd_receive_queue c (Queue.mk [] true)).
Proof.
  induction items as [|p items IH]; intros c k Hi Hc.
  - simpl. rewrite receive_n_drained by done. f_equal.
    destruct c as [? ? ? ? ? ? ? ? [its cl] ?]. simpl in *. by subst.
  - simpl. unfold receive at 1, Queue.get. rewrite Hi.
    rewrite (IH _ k); [|done|by simpl]. done.
Qed.

End ClosedReceive.

(** ** Closed queues stay closed *)

Section QueuesStay.

Lemma queues_stay_refl c : queues_stay c c.
Proof. by split. Qed.

Lemma queues_stay_trans c1 c2 c3 :
  queues_stay c1 c2 -> queues_stay c2 c3 -> queues_stay c1 c3.
Proof. intros [H1 H2] [H3 H4]. split; auto. Qed.

Lemma keeps_ret {A} (a : A) : keeps (ret a).
Proof. intros c r c' [= <- <-]. apply queues_stay_refl. Qed.

Lemma keeps_raise {A} e : keeps (@raise A e).
Proof. intros c r c' [= <- <-]. apply queues_stay_refl. Qed.

Lemma keeps_self : keeps self.
Proof. intros c r c' [= <- <-]. apply queues_stay_refl. Qed.

Lemma keeps_assign f :
  (forall c, queues_stay c (f c)) -> keeps (assign f).
Proof. intros Hf c r c' [= <- <-]. apply Hf. Qed.

Lemma keeps_bind {A B} (m : M A) (k : A -> M B) :
  keeps m -> (forall a, keeps (k a)) -> keeps (bind m k).
Proof.
  intros Hm Hk c r c'. unfold bind.
  destruct (m c) as [[a|e] c1] eqn:Hrun.
  - intros Hrun'. eapply queues_stay_trans; [by eapply Hm|by eapply Hk].
  - intros [= <- <-]. by eapply Hm.
Qed.

Lemma keeps_try_except {A} (m : M A) (h : exn -> M A) :
  keeps m -> (forall e, keeps (h e)) -> keeps (try_except m h).
Proof.
  intros Hm Hh c r c'. unfold try_except.
  destruct (m c) as [[a|e] c1] eqn:Hrun.
  - intros [= <- <-]. by eapply Hm.
  - intros Hrun'. eapply queues_stay_trans; [by eapply Hm|by eapply Hh].
Qed.

Lemma keeps_exec {A} (m : M A) c : keeps m -> queues_stay c (exec m c).
Proof.
  intros Hm. unfold exec. destruct (m c) as [r c'] eqn:Hrun.
  by eapply Hm.
Qed.

(** An assignment to a field other than the queues. *)
Ltac plain_assign := apply keeps_assign; intros ?; by split.

Lemma keeps_write_self apdu : keeps (write_self apdu).
Proof.
  intros c r c'. unfold write_self.
  destruct (_write_apdu (_conn c) apdu); by intros [= <- <-].
Qed.

Lemma keeps_call_later d cb : keeps (call_later d cb).
Proof. intros c r c'. unfold call_later. by intros [= <- <-]. Qed.

Lemma keeps_cancel h : keeps (cancel h).
Proof. unfold cancel. plain_assign. Qed.

Lemma keeps_close : keeps close.
Proof. unfold close. plain_assign. Qed.

Lemma keeps_notify_all : keeps notify_all.
Proof. unfold notify_all. plain_assign. Qed.

Lemma keeps_complete_future f s : keeps (complete_future f s).
Proof. unfold complete_future. plain_assign. Qed.

Lemma keeps_start_supervisory : keeps _start_supervisory_timeout.
Proof.
  unfold _start_supervisory_timeout.
  apply keeps_bind; [apply keeps_self|]. intros c.
  destruct (_supervisory_handle c); [apply keeps_ret|].
  apply keeps_bind; [apply keeps_call_later|]. intros h. plain_assign.
Qed.

Lemma keeps_stop_supervisory : keeps _stop_supervisory_timeout.
Proof.
  unfold _stop_supervisory_timeout.
  apply keeps_bind; [apply keeps_self|]. intros c.
  destruct (_supervisory_handle c); [|apply keeps_ret].
  apply keeps_bind; [apply keeps_cancel|]. intros _. plain_assign.
Qed.

Lemma keeps_on_supervisory_timeout : keeps _on_supervisory_timeout.
Proof.
  unfold _on_supervisory_timeout.
  apply keeps_bind; [plain_assign|]. intros _.
  apply keeps_try_except; [|intros _; apply keeps_ret].
  apply keeps_bind; [apply keeps_self|]. intros c.
  apply keeps_bind; [apply keeps_write_self|]. intros _. plain_assign.
Qed.

Lemma keeps_fire h : keeps (fire h).
Proof.
  unfold fire. apply keeps_bind; [apply keeps_self|]. intros c.
  destruct (loop_timers c !! h) as [t|]; [|apply keeps_ret].
  destruct (cancelled t || fired t); [apply keeps_ret|].
  apply keeps_bind; [plain_assign|]. intros _.
  destruct (action t); [apply keeps_close|apply keeps_on_supervisory_timeout].
Qed.

Lemma keeps_set_ack r : keeps (_set_ack r).
Proof.
  intros c res c' Hrun.
  destruct (set_ack_frame r c) as (res' & W & T & Hset & _ & _).
  rewrite Hrun in Hset. injection Hset as -> ->.
  by destruct res'.
Qed.

Lemma keeps_process_apduu function : keeps (_process_apduu function).
Proof.
  destruct function; unfold _process_apduu.
  - apply keeps_bind; [plain_assign|]. intros _. apply keeps_write_self.
  - apply keeps_ret.
  - apply keeps_bind; [apply keeps_self|]. intros c.
    destruct (negb (_always_enabled c)); [|apply keeps_ret].
    apply keeps_bind; [apply keeps_write_self|]. intros _.
    apply keeps_bind; [plain_assign|]. intros _.
    apply keeps_bind; [apply keeps_stop_supervisory|]. intros _.
    apply keeps_bind; [plain_assign|]. intros _. apply keeps_write_self.
  - apply keeps_ret.
  - apply keeps_write_self.
  - plain_assign.
Qed.

(** A closed receive queue refuses the payload; an open one stays
    open. *)
Lemma keeps_receive_queue_put data : keeps (receive_queue_put data).
Proof.
  intros c r c'. unfold receive_queue_put, Queue.put_nowait.
  destruct (Queue.closed (_receive_queue c)) eqn:Hc;
    intros [= <- <-]; split; cbn; congruence.
Qed.

Lemma keeps_process_apdui ssn rsn data : keeps (_process_apdui ssn rsn data).
Proof.
  unfold _process_apdui.
  apply keeps_bind; [apply keeps_set_ack|]. intros _.
  apply keeps_bind; [apply keeps_self|]. intros c.
  destruct (negb (ssn =? _rsn c)); [apply keeps_raise|].
  apply keeps_bind; [plain_assign|]. intros _.
  apply keeps_bind; [apply keeps_start_supervisory|]. intros _.
  apply keeps_bind.
  { destruct (nonempty data);
      [apply keeps_receive_queue_put|apply keeps_ret]. }
  intros _. apply keeps_bind; [plain_assign|]. intros _.
  apply keeps_bind; [apply keeps_self|]. intros c0.
  destruct (_receive_window_size c0 <=? _w c0); [|apply keeps_ret].
  apply keeps_bind; [apply keeps_write_self|]. intros _.
  apply keeps_bind; [plain_assign|]. intros _. apply keeps_stop_supervisory.
Qed.

Lemma keeps_read_loop_body ev : keeps (_read_loop_body ev).
Proof.
  unfold _read_loop_body, _read_apdu.
  apply keeps_bind.
  { apply keeps_bind; [apply keeps_self|]. intros c.
    destruct (is_open (_conn c)); [|apply keeps_raise].
    destruct ev; [apply keeps_ret|apply keeps_raise]. }
  intros [ssn rsn data|rsn|function].
  - apply keeps_process_apdui.
  - apply keeps_set_ack.
  - apply keeps_process_apduu.
Qed.

Lemma keeps_read_loop_finally : keeps _read_loop_finally.
Proof.
  unfold _read_loop_finally.
  apply keeps_bind; [apply keeps_close|]. intros _.
  apply keeps_assign. intros c. by split.
Qed.

Lemma keeps_write_loop_finally : keeps _write_loop_finally.
Proof.
  intros c r c'. rewrite write_loop_finally_eq. intros [= <- <-]. by split.
Qed.

Lemma keeps_write_loop_wait asdu : keeps (_write_loop_wait asdu).
Proof.
  unfold _write_loop_wait, _write_loop_emit.
  apply keeps_bind; [apply keeps_self|]. intros c.
  destruct (window_open c); [|apply keeps_ret].
  apply keeps_bind; [|intros _; apply keeps_ret].
  apply keeps_bind; [apply keeps_self|]. intros c0.
  destruct (negb (_is_enabled c0)); [apply keeps_ret|].
  apply keeps_bind; [apply keeps_write_self|]. intros _.
  apply keeps_bind; [plain_assign|]. intros _.
  apply keeps_bind; [apply keeps_stop_supervisory|]. intros _.
  apply keeps_bind; [apply keeps_self|]. intros c1.
  apply keeps_bind; [apply keeps_call_later|]. intros h.
  apply keeps_bind; [plain_assign|]. intros _. plain_assign.
Qed.

Lemma keeps_write_loop_item item : keeps (_write_loop_item item).
Proof.
  destruct item as [asdu|f]; unfold _write_loop_item.
  - apply keeps_bind; [apply keeps_self|]. intros c.
    destruct (_waiting_ack_handles c !! _ssn c);
      [apply keeps_raise|apply keeps_write_loop_wait].
  - apply keeps_bind; [apply keeps_self|]. intros c.
    apply keeps_bind; [|intros _; apply keeps_ret].
    destruct (negb (future_is_done c f));
      [apply keeps_complete_future|apply keeps_ret].
Qed.

(** Taking an item off the send queue leaves its closed flag alone. *)
Lemma keeps_write_loop_body : keeps _write_loop_body.
Proof.
  intros c r c'. unfold _write_loop_body. rewrite bind_self.
  unfold Queue.get.
  destruct (Queue.items (_send_queue c)) as [|item rest].
  - destruct (Queue.closed (_send_queue c)); intros [= <- <-];
      apply queues_stay_refl.
  - rewrite bind_assign. intros Hrun.
    eapply queues_stay_trans; [|by eapply keeps_write_loop_item].
    by split.
Qed.

Lemma guarded_queues_stay body c :
  keeps body -> queues_stay c (snd (guarded body c)).
Proof.
  intros Hbody. unfold guarded.
  destruct (body c) as [[st|e] c1] eqn:Hrun; cbn [snd].
  - by eapply Hbody.
  - eapply queues_stay_trans; [by eapply Hbody|].
    apply keeps_exec, keeps_write_loop_finally.
Qed.

Lemma keeps_send data : keeps (send data).
Proof.
  intros c r c'. unfold send, Queue.put_nowait.
  destruct (Queue.closed (_send_queue c)) eqn:Hc;
    intros [= <- <-]; split; cbn; congruence.
Qed.

Lemma keeps_drain : keeps drain.
Proof.
  intros c r c'. unfold drain, Queue.put_nowait.
  cbn [_send_queue upd_loop_futures].
  destruct (Queue.closed (_send_queue c)) eqn:Hc;
    intros [= <- <-]; split; cbn; congruence.
Qed.

Lemma receive_queues_stay c : queues_stay c (snd (receive c)).
Proof.
  unfold receive, Queue.get.
  destruct (Queue.items (_receive_queue c)) as [|p rest]; cbn [snd].
  - destruct (Queue.closed (_receive_queue c)); apply queues_stay_refl.
  - by split.
Qed.

(** No operation of the connection reopens a queue. *)
Lemma step_queues_stay c c' : step c c' -> queues_stay c c'.
Proof.
  intros Hstep. destruct Hstep.
  - unfold _read_loop.
    destruct (_read_loop_body ev c) as [[[]|e] c1] eqn:Hrun; cbn [snd].
    + by eapply keeps_read_loop_body.
    + eapply queues_stay_trans; [by eapply keeps_read_loop_body|].
      apply keeps_exec, keeps_read_loop_finally.
  - apply guarded_queues_stay, keeps_write_loop_body.
  - apply guarded_queues_stay, keeps_write_loop_wait.
  - apply keeps_exec, keeps_on_supervisory_timeout.
  - apply keeps_exec, keeps_close.
  - apply keeps_exec, keeps_fire.
  - apply keeps_exec, keeps_set_ack.
  - apply keeps_exec, keeps_send.
  - apply keeps_exec, keeps_drain.
  - apply receive_queues_stay.
  - apply keeps_exec, keeps_read_loop_finally.
  - apply keeps_exec, keeps_write_loop_finally.
Qed.

Lemma reachable_queues_stay c c' : reachable c c' -> queues_stay c c'.
Proof.
  induction 1 as [|c1 c2 c3 Hstep _ IH]; [apply queues_stay_refl|].
  eapply queues_stay_trans; [by apply step_queues_stay|done].
Qed.

End QueuesStay.

(** ** Claims about a closed connection *)

(** C8, amended. Once the writer's clean-up and the reader's clean-up
    have both run, in whichever order and whatever the connection has
    done in between or does afterwards: [send] raises [ConnectionError]
    and leaves the state, the send queue included, as it was; and
    successive [receive] calls first return the payloads that are in the
    receive queue, one by one in their order of arrival, and raise
    [ConnectionError] from the moment the queue is empty. *)
Theorem ended_send_receive (a b c : Connection) :
  reachable (exec _write_loop_finally a) c ->
  reachable (exec _read_loop_finally b) c ->
  (forall data, send data c = (Raise ConnectionError, c))
  /\ (forall k,
        fst (receive_n (length (Queue.items (_receive_queue c)) + k) c)
          = ((fun p => Ready (Ok p)) <$> Queue.items (_receive_queue c))
              ++ replicate k (Ready (Raise ConnectionError)))
  /\ (Queue.items (_receive_queue c) = [] ->
        receive c = (Ready (Raise ConnectionError), c)).
Proof.
  intros Hw Hr.
  apply reachable_queues_stay in Hw as [Hs _].
  apply reachable_queues_stay in Hr as [_ Hr].
  assert (Queue.closed (_send_queue c) = true) as Hsend.
  { apply Hs. unfold exec. by rewrite write_loop_finally_eq. }
  assert (Queue.closed (_receive_queue c) = true) as Hrecv.
  { apply Hr, read_loop_finally_closed. }
  clear Hs Hr. split_and!.
  - intros data. unfold send, Queue.put_nowait. by rewrite Hsend.
  - intros k. by rewrite (receive_n_queued _ c k eq_refl Hrecv).
  - intros Hi. unfold receive, Queue.get. by rewrite Hi, Hrecv.
Qed.

(** C8, the claim as first stated fails: a response timer that expires
    closes the connection, yet the writer has not run its clean-up and
    the send queue is still open: [send] returns normally and the payload
    is queued, and [receive] waits instead of raising.  The writer's
    clean-up then drops the payload without writing it. *)
Lemma send_after_close_counterexample :
  let c := exec (fire 0%nat) (send_and_write sample_payload default_client) in
  reachable default_client c
  /\ is_open (_conn c) = false
  /\ receive c = (Pending, c)
  /\ exists c',
       send sample_payload c = (Ok tt, c')
       /\ Queue.items (_send_queue c') = [Payload sample_payload]
       /\ Queue.items (_send_queue (exec _write_loop_finally c')) = []
       /\ written (_conn (exec _write_loop_finally c')) = written (_conn c).
Proof.
  intros c. split_and!.
  - eapply rtc_l; [apply (step_send sample_payload)|].
    eapply rtc_l; [apply step_write|].
    apply rtc_once, (step_fire 0%nat).
  - by vm_compute.
  - by vm_compute.
  - eexists. split_and!; [by vm_compute|by vm_compute..].
Qed.

(** Both queues are closed once the reader and the writer have ended, in
    whichever order. *)
Lemma tasks_ended_closed (c : Connection) :
  let d := exec _write_loop_finally (exec _read_loop_finally c) in
  let d' := exec _read_loop_finally (exec _write_loop_finally c) in
  Queue.closed (_send_queue d) = true
  /\ Queue.closed (_receive_queue d) = true
  /\ Queue.closed (_send_queue d') = true
  /\ Queue.closed (_receive_queue d') = true
  /\ Queue.items (_receive_queue d) = Queue.items (_receive_queue c).
Proof.
  unfold exec. rewrite !write_loop_finally_eq. done.
Qed.

(** ** The client handshake *)

Section Handshake.

(** Frames that pass by are consumed; only [U(TESTFR_ACT)] among them is
    answered. *)
Lemma wait_startdt_con_prefix timeout pre : forall rest written,
  Forall (fun a => in_time timeout a = true /\ passes_by a = true) pre ->
  _wait_startdt_con timeout (pre ++ rest) (mk_tcp true written) =
    _wait_startdt_con timeout rest
      (mk_tcp true (written ++ flat_map handshake_reply pre)).
Proof.
  induction pre as [|[at_time ev] pre IH]; intros rest written Hpre.
  - simpl. by rewrite app_nil_r.
  - apply Forall_cons in Hpre as [[Ht Hp] Hpre].
    unfold in_time in Ht. simpl in Ht. apply negb_true_iff in Ht.
    unfold passes_by in Hp. simpl in Hp.
    simpl. rewrite Ht.
    destruct ev as [[ssn rsn data|rsn|[]]|e]; try done;
      unfold handshake_reply; simpl; rewrite IH by done;
      by rewrite <- ?app_assoc.
Qed.

(** A failed wait leaves the stream open or not as it found it. *)
Lemma wait_startdt_con_open timeout arrivals : forall conn r conn',
  _wait_startdt_con timeout arrivals conn = (r, conn') ->
  is_open conn' = is_open conn.
Proof.
  induction arrivals as [|[at_time ev] arrivals IH]; intros conn r conn'.
  - by intros [= <- <-].
  - simpl. destruct (Qle_bool timeout at_time); [by intros [= <- <-]|].
    destruct ev as [[ssn rsn data|rsn|[]]|e];
      try (by intros [= <- <-]); try (by apply IH).
    unfold _write_apdu, tcp_write.
    destruct (is_open conn) eqn:Ho; [|by intros [= <- <-]].
    intros Hrun. by apply IH in Hrun.
Qed.

End Handshake.

(** ** Claims about the handshake *)

(** C6. [connect] writes [U(STARTDT_ACT)] first and then reads what
    arrives before the response timeout.  S-frames, I-frames and
    U-frames other than [STARTDT_CON] pass by: nothing is written for
    them, except [U(TESTFR_CON)] for each [U(TESTFR_ACT)].  When
    [U(STARTDT_CON)] arrives in time after such frames, the result is a
    fresh connection on the open stream with [always_enabled] and
    [is_enabled] true.  When nothing more arrives, or the next arrival
    is not in time, [connect] raises [TimeoutError]; when a read fails in
    time, it raises that failure; and whenever [connect] raises, the
    stream it returns is closed. *)
Theorem connect_handshake (t1 t2 t3 : Q) (k w : Z)
    (pre : list (Q * read_event)) :
  Forall (fun a => in_time t1 a = true /\ passes_by a = true) pre ->
  let sent := APDUU STARTDT_ACT :: flat_map handshake_reply pre in
  (forall at_time post,
     in_time t1 (at_time, Frame (APDUU STARTDT_CON)) = true ->
     exists c,
       connect (pre ++ (at_time, Frame (APDUU STARTDT_CON)) :: post)
         t1 t2 t3 k w = (Ok c, mk_tcp true sent)
       /\ c = Connection__init__ (mk_tcp true sent) true t1 t2 t3 k w
       /\ _always_enabled c = true
       /\ _is_enabled c = true)
  /\ connect pre t1 t2 t3 k w = (Raise TimeoutError, mk_tcp false sent)
  /\ (forall late post,
       in_time t1 late = false ->
       connect (pre ++ late :: post) t1 t2 t3 k w
         = (Raise TimeoutError, mk_tcp false sent))
  /\ (forall at_time e post,
       in_time t1 (at_time, ReadError e) = true ->
       connect (pre ++ (at_time, ReadError e) :: post) t1 t2 t3 k w
         = (Raise e, mk_tcp false sent))
  /\ (forall arrivals e conn,
       connect arrivals t1 t2 t3 k w = (Raise e, conn) ->
       is_open conn = false).
Proof.
  intros Hpre sent. split_and!.
  - intros at_time post Ht. unfold connect, tcp_connect. simpl.
    rewrite wait_startdt_con_prefix by done. simpl.
    unfold in_time in Ht. simpl in Ht. apply negb_true_iff in Ht.
    rewrite Ht. by eexists.
  - unfold connect, tcp_connect. simpl.
    rewrite <- (app_nil_r pre) at 1.
    by rewrite wait_startdt_con_prefix.
  - intros [at_time ev] post Ht. unfold connect, tcp_connect. simpl.
    rewrite wait_startdt_con_prefix by done. simpl.
    unfold in_time in Ht. simpl in Ht. apply negb_false_iff in Ht.
    by rewrite Ht.
  - intros at_time e post Ht. unfold connect, tcp_connect. simpl.
    rewrite wait_startdt_con_prefix by done. simpl.
    unfold in_time in Ht. simpl in Ht. apply negb_true_iff in Ht.
    by rewrite Ht.
  - intros arrivals e conn. unfold connect, tcp_connect. simpl.
    destruct (_wait_startdt_con t1 arrivals _) as [[[]|e'] conn'];
      by intros [= <- <-].
Qed.

(** ** The window invariants along a run *)

Section WindowInvariant.

Lemma tame_refl c : tame c c.
Proof. unfold tame. auto. Qed.

Lemma tame_trans c1 c2 c3 : tame c1 c2 -> tame c2 c3 -> tame c1 c3.
Proof.
  unfold tame. intros (Hk & Hr & Hs & Hw) (Hk' & Hr' & Hs' & Hw').
  split_and!; [congruence|congruence|lia|].
  destruct Hw' as [E|E]; [|by right].
  destruct Hw as [E'|E']; [left|right]; congruence.
Qed.

Lemma tame_ok c c' : tame c c' -> window_state_ok c -> window_state_ok c'.
Proof.
  unfold tame, window_state_ok, window_invariant.
  intros (Hk & Hr & Hs & Hw) [[HW Hlt] Hpos].
  rewrite Hk, Hr. split_and!; [lia| |done].
  destruct Hw as [E|E]; rewrite E; lia.
Qed.

Lemma tame_set_ack r c res c' : _set_ack r c = (res, c') -> tame c c'.
Proof.
  destruct (set_ack_frame r c) as (res' & W & T & -> & HW & _).
  intros [= <- <-]. apply map_subseteq_size in HW.
  unfold tame. destruct res'; simpl; auto.
Qed.

Lemma tame_write_loop_finally c : tame c (exec _write_loop_finally c).
Proof.
  unfold exec. rewrite write_loop_finally_eq. unfold tame. simpl. auto.
Qed.

Lemma tame_read_loop_finally c : tame c (exec _read_loop_finally c).
Proof. unfold tame. simpl. auto. Qed.

Lemma tame_on_supervisory_timeout c :
  tame c (exec _on_supervisory_timeout c).
Proof.
  unfold _on_supervisory_timeout. step_through.
  destruct (is_open (_conn c)); unfold tame; simpl; auto.
Qed.

Lemma tame_fire h c : tame c (exec (fire h) c).
Proof.
  unfold fire, exec. unfold bind at 1, self at 1.
  destruct (loop_timers c !! h) as [t|]; [|apply tame_refl].
  destruct (cancelled t || fired t); [apply tame_refl|].
  unfold bind at 1, assign at 1.
  destruct (action t); simpl.
  - unfold tame. simpl. auto.
  - match goal with |- tame _ (snd (_on_supervisory_timeout ?d)) =>
      apply (tame_trans _ d); [unfold tame; simpl; auto|];
      apply tame_on_supervisory_timeout end.
Qed.

Lemma tame_process_apduu function c res c' :
  _process_apduu function c = (res, c') -> tame c c'.
Proof.
  destruct function; unfold _process_apduu.
  - step_through. destruct (is_open (_conn c));
      intros [= <- <-]; unfold tame; simpl; auto.
  - intros [= <- <-]. apply tame_refl.
  - unfold bind at 1, self at 1.
    destruct (_always_enabled c); simpl; [intros [= <- <-]; apply tame_refl|].
    step_through. destruct (is_open (_conn c)); simpl;
      [|intros [= <- <-]; apply tame_refl].
    destruct (_supervisory_handle c); simpl;
      intros [= <- <-]; unfold tame; simpl; auto.
  - intros [= <- <-]. apply tame_refl.
  - step_through. destruct (is_open (_conn c));
      intros [= <- <-]; unfold tame; simpl; auto.
  - step_through. intros [= <- <-]. unfold tame; simpl; auto.
Qed.

(** An I-frame read from an open stream keeps the invariants: [w] grows
    only below the receive window. *)
Lemma process_apdui_ok ssn rsn data c res c' :
  is_open (_conn c) = true ->
  _process_apdui ssn rsn data c = (res, c') ->
  window_state_ok c -> window_state_ok c'.
Proof.
  intros Ho Hrun Hok.
  destruct (set_ack_frame rsn c) as (r1 & W & T & Hset & HW & _).
  apply map_subseteq_size in HW.
  revert Hrun. unfold _process_apdui.
  destruct r1 as [[]|e].
  2:{ rewrite (bind_raise _ _ _ _ _ Hset). intros [= <- <-].
      revert Hok. apply tame_ok. unfold tame. simpl. auto. }
  rewrite (bind_ok _ _ _ _ _ Hset).
  match type of Hset with _ = (_, ?s) => set (c1 := s) in * end.
  assert (_send_window_size c1 = _send_window_size c
          /\ _receive_window_size c1 = _receive_window_size c
          /\ (size (_waiting_ack_handles c1)
                <= size (_waiting_ack_handles c))%nat
          /\ _w c1 = _w c
          /\ is_open (_conn c1) = true) as (Ek & Er & Es & Ew & Eo)
    by (subst c1; simpl; auto).
  clearbody c1. clear Hset HW W T.
  destruct Hok as [[Hsz Hw] Hpos].
  rewrite bind_self.
  destruct (negb (ssn =? _rsn c1)).
  { intros [= <- <-]. unfold window_state_ok, window_invariant. lia. }
  rewrite bind_assign, (bind_ok _ _ _ _ _ (start_supervisory_eq _)).
  destruct (armed_config (upd_rsn c1 ((_rsn c1 + 1) mod 0x8000)))
    as (Ak & Ar & AW & Aw & Ac).
  set (d1 := armed _) in *. clearbody d1. simpl in Ak, Ar, AW, Aw, Ac.
  assert (exists r2 q,
            (if nonempty data then receive_queue_put data else ret tt) d1
            = (r2, upd_receive_queue d1 q)) as (r2 & q & Hput).
  { destruct (nonempty data).
    - destruct (receive_queue_put data d1) as [r2 d2] eqn:Hput.
      destruct (receive_queue_put_frame _ _ _ _ Hput) as [q ->].
      by exists r2, q.
    - exists (Ok tt), (_receive_queue d1). unfold ret. by destruct d1. }
  destruct r2 as [[]|e].
  2:{ rewrite (bind_raise _ _ _ _ _ Hput). intros [= <- <-].
      unfold window_state_ok, window_invariant. simpl.
      rewrite Ak, Ar, AW, Aw. lia. }
  rewrite (bind_ok _ _ _ _ _ Hput). clear Hput.
  rewrite bind_assign, bind_self.
  cbn [_receive_window_size _w _rsn upd_w upd_receive_queue].
  rewrite Ar, Aw, Er, Ew.
  destruct (Z.leb_spec (_receive_window_size c) (_w c + 1)) as [Hfull|Hroom].
  - match goal with |- context [bind (write_self ?a) _ ?d] =>
      assert (is_open (_conn d) = true) as Ho'
        by (cbn [_conn upd_w upd_receive_queue]; by rewrite Ac);
      rewrite (bind_ok _ _ _ _ _ (write_self_open a d Ho'))
    end.
    rewrite bind_assign, stop_supervisory_eq.
    match goal with |- context [stopped ?d] =>
      destruct (stopped_config d) as (Sk & Sr & SW & Sw);
      set (d' := stopped d) in *; clearbody d'
    end.
    simpl in Sk, Sr, SW, Sw. intros [= <- <-].
    unfold window_state_ok, window_invariant.
    rewrite Sk, Sr, SW, Sw, Ak, Ar, AW. lia.
  - unfold ret. intros [= <- <-].
    unfold window_state_ok, window_invariant. simpl.
    rewrite Ak, Ar, AW. lia.
Qed.

Lemma read_loop_ok ev c :
  window_state_ok c -> window_state_ok (snd (_read_loop ev c)).
Proof.
  intros Hok. unfold _read_loop.
  destruct (_read_loop_body ev c) as [res c'] eqn:Hrun.
  assert (window_state_ok c') as Hok'.
  { revert Hrun. unfold _read_loop_body, _read_apdu.
    unfold bind at 1. unfold bind at 1, self at 1.
    destruct (is_open (_conn c)) eqn:Ho; [|by intros [= <- <-]].
    destruct ev as [[ssn rsn data|rsn|function]|e]; simpl.
    - intros Hrun. by eapply process_apdui_ok.
    - intros Hrun. eapply tame_ok; [|done]. by eapply tame_set_ack.
    - intros Hrun. eapply tame_ok; [|done]. by eapply tame_process_apduu.
    - by intros [= <- <-]. }
  destruct res; simpl; [done|].
  eapply tame_ok; [apply tame_read_loop_finally|done].
Qed.

(** The writer admits a frame only below the send window. *)
Lemma write_loop_wait_ok asdu c res c' :
  _write_loop_wait asdu c = (res, c') ->
  window_state_ok c -> window_state_ok c'.
Proof.
  unfold _write_loop_wait, _write_loop_emit.
  unfold bind at 1, self at 1. unfold window_open.
  destruct (Z.ltb_spec (Z.of_nat (size (_waiting_ack_handles c)))
              (_send_window_size c)) as [Hlt|Hge];
    [|by intros [= <- <-]].
  unfold bind at 1. unfold bind at 1, self at 1.
  destruct (_is_enabled c); simpl; [|by intros [= <- <-]].
  step_through. destruct (is_open (_conn c)); simpl;
    [|by intros [= <- <-]].
  pose proof (map_size_insert (_ssn c)
    (fresh (dom (supervisory_cancelled c))) (_waiting_ack_handles c)) as Hsz.
  unfold supervisory_cancelled in Hsz.
  destruct (_supervisory_handle c) as [s|]; simpl;
    intros [= <- <-]; intros [[HW Hw] Hpos];
    unfold window_state_ok, window_invariant; simpl;
    destruct (_waiting_ack_handles c !! _ssn c); simpl in Hsz;
    rewrite Hsz; lia.
Qed.

Lemma guarded_ok body c :
  (forall res c', body c = (res, c') ->
     window_state_ok c -> window_state_ok c') ->
  window_state_ok c -> window_state_ok (snd (guarded body c)).
Proof.
  intros Hbody Hok. unfold guarded.
  destruct (body c) as [[st|e] c'] eqn:Hrun; simpl.
  - by eapply Hbody.
  - eapply tame_ok; [apply tame_write_loop_finally|]. by eapply Hbody.
Qed.

Lemma write_loop_item_ok item c res c' :
  _write_loop_item item c = (res, c') ->
  window_state_ok c -> window_state_ok c'.
Proof.
  destruct item as [asdu|f]; simpl.
  - unfold bind at 1, self at 1.
    destruct (_waiting_ack_handles c !! _ssn c).
    + by intros [= <- <-].
    + apply write_loop_wait_ok.
  - step_through. destruct (future_is_done c f); by intros [= <- <-].
Qed.

Lemma write_loop_ok c :
  window_state_ok c -> window_state_ok (snd (_write_loop c)).
Proof.
  apply guarded_ok. intros res c'. unfold _write_loop_body, Queue.get.
  unfold bind at 1, self at 1.
  destruct (Queue.items (_send_queue c)) as [|item rest].
  - destruct (Queue.closed (_send_queue c)); by intros [= <- <-].
  - unfold bind at 1, assign at 1. intros Hrun Hok.
    by eapply write_loop_item_ok.
Qed.

(** Every operation keeps the invariants. *)
Lemma step_ok c c' : step c c' -> window_state_ok c -> window_state_ok c'.
Proof.
  intros Hstep Hok. destruct Hstep.
  - by apply read_loop_ok.
  - by apply write_loop_ok.
  - apply guarded_ok; [|done]. intros res c'. apply write_loop_wait_ok.
  - eapply tame_ok; [apply tame_on_supervisory_timeout|done].
  - eapply tame_ok; [|done]. unfold tame. simpl. auto.
  - eapply tame_ok; [apply tame_fire|done].
  - eapply tame_ok; [|done].
    destruct (_set_ack r c) as [res c'] eqn:Hrun. unfold exec. rewrite Hrun.
    by eapply tame_set_ack.
  - eapply tame_ok; [|done]. unfold exec, send.
    destruct (Queue.put_nowait _ _) as [q|[]]; unfold tame; simpl; auto.
  - eapply tame_ok; [|done]. unfold exec, drain. simpl.
    destruct (Queue.put_nowait _ _) as [q|[]]; unfold tame; simpl; auto.
  - eapply tame_ok; [|done]. unfold receive.
    destruct (Queue.get _) as [[[p q]|[]]|]; unfold tame; simpl; auto.
  - eapply tame_ok; [apply tame_read_loop_finally|done].
  - eapply tame_ok; [apply tame_write_loop_finally|done].
Qed.

Lemma reachable_ok c0 c :
  reachable c0 c -> window_state_ok c0 -> window_state_ok c.
Proof.
  induction 1 as [|c1 c2 c3 Hstep _ IH]; [done|].
  intros Hok. apply IH. by eapply step_ok.
Qed.

End WindowInvariant.

(** ** Claims about the windows *)

(** C4. A connection built with positive window sizes satisfies
    [|waiting_ack| <= send_window_size] and [w < receive_window_size] in
    every state it reaches through the operations of the reader, the
    writer and its resumption, the timer callbacks, ack-advance, the
    public calls and the clean-up of its tasks. *)
Theorem window_invariant_holds (conn : tcp_conn) (always_enabled : bool)
    (t1 t2 t3 : Q) (k w : Z) (c : Connection) :
  0 < k -> 0 < w ->
  reachable (Connection__init__ conn always_enabled t1 t2 t3 k w) c ->
  Z.of_nat (size (_waiting_ack_handles c)) <= _send_window_size c
  /\ _w c < _receive_window_size c.
Proof.
  intros Hk Hw Hreach.
  apply (reachable_ok _ _ Hreach).
  unfold window_state_ok, window_invariant. simpl.
  rewrite map_size_empty. lia.
Qed.

(** * The claims at sample inputs *)

Lemma set_ack_interval_witness :
  seq15 (_ack wrapped_client) /\ seq15 1
  /\ acked_ssns (_ack wrapped_client) 1 = [0x7FFE; 0x7FFF; 0]
  /\ exists c', _set_ack 1 wrapped_client = (Ok tt, c') /\ _ack c' = 1.
Proof.
  assert (seq15 (_ack wrapped_client)) as H1 by (unfold seq15; simpl; lia).
  assert (seq15 1) as H2 by (unfold seq15; lia).
  destruct (set_ack_interval wrapped_client 1 H1 H2)
    as (Heq & _ & _ & _ & Hok & _).
  split; [exact H1|]. split; [exact H2|]. split; [reflexivity|].
  destruct Hok as (c' & Hrun & _ & _ & Hack & _).
  - rewrite <- Heq. intros x Hx.
    change (x ∈ [0x7FFE; 0x7FFF; 0]) in Hx.
    repeat (apply elem_of_cons in Hx as [->|Hx]);
      [by eexists..|by apply elem_of_nil in Hx].
  - by exists c'.
Defined.

Lemma ack_beyond_window_rejected_witness :
  seq15 (_ack wrapped_client) /\ seq15 (_ssn wrapped_client) /\ seq15 2
  /\ exists c',
       _set_ack 2 wrapped_client =
         (Raise (Exception "received ack for unsent sequence number"), c').
Proof.
  assert (seq15 (_ack wrapped_client)) as H1 by (unfold seq15; simpl; lia).
  assert (seq15 (_ssn wrapped_client)) as H2 by (unfold seq15; simpl; lia).
  assert (seq15 2) as H3 by (unfold seq15; lia).
  split; [exact H1|]. split; [exact H2|]. split; [exact H3|].
  apply (ack_beyond_window_rejected wrapped_client 2 H1 H2 H3).
  - apply set_eq. intros x.
    rewrite elem_of_list_to_set.
    change (mod_interval (_ack wrapped_client) (_ssn wrapped_client))
      with [0x7FFE; 0x7FFF; 0].
    rewrite elem_of_dom. simpl.
    rewrite !elem_of_cons, elem_of_nil.
    rewrite !lookup_insert_is_Some, lookup_empty, is_Some_alt.
    intuition lia.
  - vm_compute. intros H. apply H. reflexivity.
Defined.

Lemma process_apdui_steps_witness :
  is_open (_conn default_client) = true
  /\ Queue.closed (_receive_queue default_client) = false
  /\ exists c',
       _process_apdui 0 0 sample_payload default_client = (Ok tt, c')
       /\ _rsn c' = 1
       /\ Queue.items (_receive_queue c') = [sample_payload]
       /\ _w c' = 1.
Proof.
  split; [reflexivity|]. split; [reflexivity|].
  destruct (process_apdui_steps default_client 0 0 sample_payload
              eq_refl eq_refl) as [_ Hok].
  destruct (Hok (snd (_set_ack 0 default_client)) eq_refl) as [_ Hgo].
  destruct (Hgo eq_refl) as (c' & Hrun & Hrsn & Hq & Hw & _).
  exists c'. split; [exact Hrun|]. split; [exact Hrsn|].
  split; [exact Hq|exact Hw].
Defined.


Lemma window_invariant_holds_witness :
  0 < 12 /\ 0 < 8
  /\ reachable default_client (send_and_write sample_payload default_client)
  /\ Z.of_nat (size (_waiting_ack_handles
                       (send_and_write sample_payload default_client)))
       <= 12.
Proof.
  assert (reachable default_client
            (send_and_write sample_payload default_client)) as Hr.
  { eapply rtc_l; [apply (step_send sample_payload)|].
    apply rtc_once. apply step_write. }
  split; [lia|]. split; [lia|]. split; [exact Hr|].
  apply (window_invariant_holds (mk_tcp true [APDUU STARTDT_ACT]) true
           (15 # 1) (10 # 1) (20 # 1) 12 8 _ ltac:(lia) ltac:(lia) Hr).
Defined.


Lemma connect_handshake_witness :
  let pre := [((1 # 1)%Q, Frame (APDUS 0));
              ((2 # 1)%Q, Frame (APDUU TESTFR_ACT))] in
  Forall (fun a => in_time (15 # 1) a = true /\ passes_by a = true) pre
  /\ exists c,
       connect (pre ++ [((3 # 1)%Q, Frame (APDUU STARTDT_CON))])
         (15 # 1) (10 # 1) (20 # 1) 12 8
       = (Ok c, mk_tcp true [APDUU STARTDT_ACT; APDUU TESTFR_CON])
       /\ _is_enabled c = true.
Proof.
  intros pre.
  assert (Forall (fun a => in_time (15 # 1) a = true /\ passes_by a = true)
            pre) as Hpre.
  { repeat constructor. }
  split; [exact Hpre|].
  destruct (connect_handshake (15 # 1) (10 # 1) (20 # 1) 12 8 pre Hpre)
    as (Hok & _).
  destruct (Hok (3 # 1)%Q [] eq_refl) as (c & Hrun & _ & _ & He).
  exists c. split; [exact Hrun|exact He].
Defined.

Lemma ended_send_receive_witness :
  let a := exec _read_loop_finally received_two in
  let c := snd (receive (exec _write_loop_finally a)) in
  reachable (exec _write_loop_finally a) c
  /\ reachable (exec _read_loop_finally received_two) c
  /\ send sample_payload c = (Raise ConnectionError, c)
  /\ fst (receive_n 3 c)
       = [Ready (Ok [Byte.x02]); Ready (Raise ConnectionError);
          Ready (Raise ConnectionError)].
Proof.
  intros a c.
  assert (reachable (exec _write_loop_finally a) c) as Hw.
  { apply rtc_once, step_receive. }
  assert (reachable (exec _read_loop_finally received_two) c) as Hr.
  { eapply rtc_l; [apply step_writer_cancelled|].
    apply rtc_once, step_receive. }
  split; [exact Hw|]. split; [exact Hr|].
  destruct (ended_send_receive a received_two c Hw Hr) as (Hsend & Hrecv & _).
  split; [apply Hsend|]. exact (Hrecv 2%nat).
Defined.

(** * Further properties of the endpoint *)

(** ** Tester *)

(** X1. One test cycle on an open stream.  The probe writes
    [U(TESTFR_ACT)] and nothing else.  If the reader handles a
    [U(TESTFR_CON)] after the probe, the wait succeeds and the connection
    stays open; if none arrives, the tester ends and the stream is closed;
    and a [U(TESTFR_CON)] handled before the probe does not count, the
    probe having cleared the event. *)
Theorem test_cycle (c : Connection) :
  is_open (_conn c) = true ->
  let probed := snd (_test_loop _test_loop_probe c) in
  let confirmed := exec (_process_apduu TESTFR_CON) probed in
  let stale :=
    snd (_test_loop _test_loop_probe (exec (_process_apduu TESTFR_CON) c)) in
  fst (_test_loop _test_loop_probe c) = Running
  /\ written (_conn probed) = written (_conn c) ++ [APDUU TESTFR_ACT]
  /\ _test_loop _test_loop_wait confirmed = (Running, confirmed)
  /\ is_open (_conn confirmed) = true
  /\ fst (_test_loop _test_loop_wait probed) = Ended
  /\ is_open (_conn (snd (_test_loop _test_loop_wait probed))) = false
  /\ fst (_test_loop _test_loop_wait stale) = Ended
  /\ is_open (_conn (snd (_test_loop _test_loop_wait stale))) = false.
Proof.
  intros Ho.
  assert (forall d, is_open (_conn d) = true ->
            _test_loop _test_loop_probe d
            = (Running,
               upd_conn (upd_test_event d false)
                 (mk_tcp true (written (_conn d) ++ [APDUU TESTFR_ACT]))))
    as Hprobe.
  { intros d Hd. unfold _test_loop, _test_loop_probe.
    rewrite bind_assign. by rewrite write_self_open. }
  assert (forall d, _test_event d = false ->
            _test_loop _test_loop_wait d = (Ended, exec close d)) as Hlost.
  { intros d Hd. unfold _test_loop, _test_loop_wait.
    by rewrite bind_self, Hd. }
  assert (forall d, exec (_process_apduu TESTFR_CON) d
                    = upd_test_event d true) as Hcon by done.
  cbv zeta. rewrite (Hprobe c Ho), !Hcon. cbn [fst snd].
  split_and!; try done.
  all: rewrite Hprobe by done; by rewrite Hlost.
Qed.

Lemma test_cycle_witness :
  is_open (_conn default_client) = true
  /\ fst (_test_loop _test_loop_wait
            (snd (_test_loop _test_loop_probe default_client))) = Ended.
Proof.
  split; [reflexivity|].
  destruct (test_cycle default_client eq_refl)
    as (_ & _ & _ & _ & Hlost & _).
  exact Hlost.
Defined.

(** ** Timers *)

Section TimerFacts.

(** The event loop skips a handle that is cancelled, has fired or is
    unknown. *)
Lemma fire_skipped h c :
  (forall t, loop_timers c !! h = Some t ->
     cancelled t = true \/ fired t = true) ->
  fire h c = (Ok tt, c).
Proof.
  intros Hskip. unfold fire. rewrite bind_self.
  destruct (loop_timers c !! h) as [t|] eqn:Ht; [|done].
  destruct (Hskip t eq_refl) as [-> | ->]; [done|].
  by rewrite orb_true_r.
Qed.

Lemma cancel_timers_lookup hs : forall (T : gmap nat timer) h,
  cancel_timers hs T !! h =
    if decide (h ∈ hs) then cancel_timer <$> T !! h else T !! h.
Proof.
  induction hs as [|g hs IH]; intros T h.
  - destruct (decide (h ∈ [])) as [Hin|]; [by apply elem_of_nil in Hin|done].
  - unfold cancel_timers in *. cbn [foldl]. rewrite IH.
    destruct (decide (h = g)) as [->|Hne].
    + rewrite lookup_alter_eq.
      rewrite (decide_True (P := g ∈ g :: hs)) by apply list_elem_of_here.
      case_decide; [|done].
      destruct (T !! g); simpl; [|done]. by rewrite cancel_timer_idemp.
    + rewrite lookup_alter_ne by done.
      destruct (decide (h ∈ hs)) as [Hin|Hout].
      * by rewrite decide_True by (by apply list_elem_of_further).
      * rewrite decide_False; [done|].
        intros [?|?]%elem_of_cons; done.
Qed.

(** A successful [ack_each] found every number registered. *)
Lemma ack_each_ok_inv l c c' x :
  ack_each l c = (Ok tt, c') -> x ∈ l ->
  is_Some (_waiting_ack_handles c !! x).
Proof.
  intros Hrun Hx.
  destruct (_waiting_ack_handles c !! x) as [h|] eqn:Hh; [by exists h|].
  destruct (ack_each_fail l c x Hx Hh) as [c'' Hfail]. congruence.
Qed.

End TimerFacts.

(** X2. The expiry of the supervisory timer.  When the handle the
    connection holds is scheduled, its expiry returns normally whatever
    the state of the stream, and the connection forgets the handle.  On
    an open stream exactly [S(rsn)] is written and [w] is reset; on a
    closed stream the failed write is swallowed, nothing is written and
    [w] stays.  Sequence numbers and outstanding frames are untouched,
    and a second expiry of the same handle does nothing. *)
Theorem supervisory_expiry (c : Connection) (h : nat) :
  _supervisory_handle c = Some h ->
  pending_timer c h on_supervisory_timeout ->
  exists c',
    fire h c = (Ok tt, c')
    /\ _supervisory_handle c' = None
    /\ (is_open (_conn c) = true ->
        written (_conn c') = written (_conn c) ++ [APDUS (_rsn c)]
        /\ _w c' = 0)
    /\ (is_open (_conn c) = false ->
        written (_conn c') = written (_conn c) /\ _w c' = _w c)
    /\ _ssn c' = _ssn c /\ _rsn c' = _rsn c /\ _ack c' = _ack c
    /\ _waiting_ack_handles c' = _waiting_ack_handles c
    /\ fire h c' = (Ok tt, c').
Proof.
  intros Hh (t & Ht & Hcb & Hc & Hf).
  unfold fire at 1. rewrite bind_self, Ht, Hc, Hf. cbn [orb].
  rewrite bind_assign, Hcb. cbn [run_callback].
  unfold _on_supervisory_timeout. rewrite bind_assign.
  unfold try_except. rewrite bind_self.
  match goal with |- context [bind (write_self ?a) _ ?d] =>
    set (d0 := d) end.
  assert (loop_timers d0 !! h = Some (fire_timer t)) as Ht0.
  { subst d0. simpl. by rewrite lookup_alter_eq, Ht. }
  assert (forall d, loop_timers d = loop_timers d0 -> fire h d = (Ok tt, d))
    as Hagain.
  { intros d Hd. apply fire_skipped. rewrite Hd, Ht0.
    intros t' [= <-]. by right. }
  destruct (is_open (_conn c)) eqn:Ho.
  - assert (is_open (_conn d0) = true) as Ho0 by done.
    rewrite (bind_ok _ _ _ _ _ (write_self_open _ _ Ho0)).
    eexists. split; [reflexivity|].
    split_and!; try done. by apply Hagain.
  - assert (write_self (APDUS (_rsn d0)) d0 = (Raise ConnectionError, d0))
      as Hw.
    { unfold write_self, _write_apdu, tcp_write.
      replace (is_open (_conn d0)) with false by done. done. }
    rewrite (bind_raise _ _ _ _ _ Hw).
    eexists. split; [reflexivity|].
    split_and!; try done. by apply Hagain.
Qed.

Lemma supervisory_expiry_witness :
  let c := exec (_process_apdui 0 0 sample_payload) default_client in
  _supervisory_handle c = Some 0%nat
  /\ pending_timer c 0%nat on_supervisory_timeout
  /\ exists c',
       fire 0%nat c = (Ok tt, c')
       /\ written (_conn c') = [APDUU STARTDT_ACT; APDUS 1].
Proof.
  intros c.
  assert (_supervisory_handle c = Some 0%nat) as Hh by reflexivity.
  assert (pending_timer c 0%nat on_supervisory_timeout) as Hp.
  { eexists. split; [reflexivity|]. by split_and!. }
  split; [exact Hh|]. split; [exact Hp|].
  destruct (supervisory_expiry c 0%nat Hh Hp)
    as (c' & Hrun & _ & Hopen & _).
  exists c'. split; [exact Hrun|]. by destruct (Hopen eq_refl).
Defined.

(** X3. Once ack-advance has returned normally, the response timer of
    every frame it acknowledged is defused: its expiry no longer does
    anything, in particular it does not close the connection. *)
Theorem acked_timer_defused (c c' : Connection) (r x : Z) (h : nat) :
  _set_ack r c = (Ok tt, c') ->
  x ∈ acked_ssns (_ack c) r ->
  _waiting_ack_handles c !! x = Some h ->
  fire h c' = (Ok tt, c')
  /\ _waiting_ack_handles c' !! x = None.
Proof.
  intros Hset Hx Hh.
  revert Hset. unfold _set_ack. rewrite bind_self.
  destruct (ack_each (acked_ssns (_ack c) r) c) as [[[]|e] c1] eqn:Hrun.
  2:{ by rewrite (bind_raise _ _ _ _ _ Hrun). }
  rewrite (bind_ok _ _ _ _ _ Hrun). rewrite bind_assign.
  unfold notify_all, assign. intros [= <-].
  destruct (ack_each_ok (acked_ssns (_ack c) r) c (acked_ssns_NoDup _ _))
    as (W & T & Hrun' & HW & HT).
  { intros y Hy. by eapply ack_each_ok_inv. }
  rewrite Hrun' in Hrun. injection Hrun as <-.
  split.
  - apply fire_skipped. cbn [loop_timers upd_cv_notified upd_ack upd_loop_timers].
    rewrite HT. rewrite decide_True.
    2:{ apply elem_of_handles_of. by exists x. }
    intros t. destruct (loop_timers c !! h) as [t0|]; [|done].
    intros [= <-]. by left.
  - cbn [_waiting_ack_handles upd_cv_notified upd_ack upd_loop_timers
         upd_waiting_ack_handles].
    rewrite HW. by rewrite decide_True.
Qed.

Lemma acked_timer_defused_witness :
  let c := send_and_write sample_payload default_client in
  _set_ack 1 c = (Ok tt, snd (_set_ack 1 c))
  /\ 0 ∈ acked_ssns (_ack c) 1
  /\ _waiting_ack_handles c !! 0 = Some 0%nat
  /\ is_open (_conn (exec (fire 0%nat) c)) = false
  /\ fire 0%nat (snd (_set_ack 1 c)) = (Ok tt, snd (_set_ack 1 c)).
Proof.
  intros c.
  assert (_set_ack 1 c = (Ok tt, snd (_set_ack 1 c))) as H1 by reflexivity.
  assert (0 ∈ acked_ssns (_ack c) 1) as H2 by apply list_elem_of_here.
  assert (_waiting_ack_handles c !! 0 = Some 0%nat) as H3 by reflexivity.
  split; [exact H1|]. split; [exact H2|]. split; [exact H3|].
  split; [reflexivity|].
  exact (proj1 (acked_timer_defused c _ 1 0 0%nat H1 H2 H3)).
Defined.

(** X4. After the clean-up of the ending write loop no timer of the
    connection is left to fire: the expiry of the response timer of any
    frame still outstanding, and of the supervisory timer, does nothing.
    The outstanding entries themselves are kept. *)
Theorem write_loop_exit_timers (c : Connection) :
  let c' := exec _write_loop_finally c in
  (forall x h,
     _waiting_ack_handles c !! x = Some h -> fire h c' = (Ok tt, c'))
  /\ (forall h, _supervisory_handle c = Some h -> fire h c' = (Ok tt, c'))
  /\ _supervisory_handle c' = None
  /\ _waiting_ack_handles c' = _waiting_ack_handles c
  /\ is_open (_conn c') = false.
Proof.
  intros c'. subst c'. unfold exec. rewrite write_loop_finally_eq.
  cbn [snd]. split_and!; try done.
  - intros x h Hh. apply fire_skipped.
    cbn [loop_timers upd_loop_futures upd_send_queue upd_loop_timers].
    rewrite cancel_timers_lookup. rewrite decide_True.
    2:{ apply list_elem_of_fmap. exists (x, h). split; [done|].
        by apply elem_of_map_to_list. }
    intros t. destruct (supervisory_cancelled c !! h); [|done].
    intros [= <-]. by left.
  - intros h Hh. apply fire_skipped.
    cbn [loop_timers upd_loop_futures upd_send_queue upd_loop_timers].
    rewrite cancel_timers_lookup. unfold supervisory_cancelled.
    rewrite Hh, lookup_alter_eq.
    intros t. case_decide.
    + destruct (loop_timers c !! h); [|done]. intros [= <-]. by left.
    + destruct (loop_timers c !! h); [|done]. intros [= <-]. by left.
Qed.



(** X6. Handling a U-frame never touches the sequence numbers, the
    acknowledgement state, the outstanding frames or the two queues,
    whatever the function and whether or not the stream is open; what it
    writes is made of S- and U-frames only; and it fails only with
    [ConnectionError]. *)
Theorem apduu_leaves_bookkeeping (function : ApduFunction)
    (c c' : Connection) (r : result unit) :
  _process_apduu function c = (r, c') ->
  _ssn c' = _ssn c /\ _rsn c' = _rsn c /\ _ack c' = _ack c
  /\ _waiting_ack_handles c' = _waiting_ack_handles c
  /\ _send_queue c' = _send_queue c
  /\ _receive_queue c' = _receive_queue c
  /\ loop_futures c' = loop_futures c
  /\ (exists more,
        written (_conn c') = written (_conn c) ++ more
        /\ iframe_ssns more = [])
  /\ (r = Ok tt \/ r = Raise ConnectionError).
Proof.
  assert (forall a d,
            (exists d', write_self a d = (Ok tt, d')
               /\ d' = upd_conn d (mk_tcp true (written (_conn d) ++ [a])))
            \/ write_self a d = (Raise ConnectionError, d)) as Hwrite.
  { intros a d. unfold write_self, _write_apdu, tcp_write.
    destruct (is_open (_conn d)); [left|right]; [by eexists|done]. }
  destruct function; unfold _process_apduu.
  - rewrite bind_assign.
    destruct (Hwrite (APDUU STARTDT_CON) (upd_is_enabled c true))
      as [(d' & -> & ->)| ->]; intros [= <- <-].
    + split_and!; try done; [by exists [APDUU STARTDT_CON]|by left].
    + split_and!; try done; [exists []; by rewrite app_nil_r|by right].
  - intros [= <- <-].
    split_and!; try done; [exists []; by rewrite app_nil_r|by left].
  - rewrite bind_self. destruct (_always_enabled c); cbn [negb].
    { intros [= <- <-].
      split_and!; try done; [exists []; by rewrite app_nil_r|by left]. }
    destruct (Hwrite (APDUS (_rsn c)) c) as [(d' & Hw & ->)|Hw].
    2:{ rewrite (bind_raise _ _ _ _ _ Hw). intros [= <- <-].
        split_and!; try done; [exists []; by rewrite app_nil_r|by right]. }
    rewrite (bind_ok _ _ _ _ _ Hw), bind_assign.
    rewrite (bind_ok _ _ _ _ _ (stop_supervisory_eq _)), bind_assign.
    match goal with |- context [stopped ?d] =>
      destruct (stopped_fields d)
        as (Sc & Sq & Sr & Sw & Sa & SW & Sn & Ss & Se & Ssq & Sf & Sh & ST);
      set (d' := stopped d) in *; clearbody d'
    end.
    simpl in Sc, Sq, Sr, Sw, Sa, SW, Sn, Ss, Se, Ssq, Sf.
    destruct (Hwrite (APDUU STOPDT_CON) (upd_is_enabled d' false))
      as [(d'' & -> & ->)| ->]; intros [= <- <-];
      cbn [_ssn _rsn _ack _waiting_ack_handles _send_queue _receive_queue
           loop_futures _conn upd_conn upd_is_enabled written];
      rewrite ?Sc, ?Sq, ?Sr, ?Sa, ?SW, ?Ss, ?Ssq, ?Sf; cbn [written].
    + split_and!; try done; [|by left].
      exists [APDUS (_rsn c); APDUU STOPDT_CON]. by rewrite <- app_assoc.
    + split_and!; try done; [by exists [APDUS (_rsn c)]|by right].
  - intros [= <- <-].
    split_and!; try done; [exists []; by rewrite app_nil_r|by left].
  - destruct (Hwrite (APDUU TESTFR_CON) c)
      as [(d' & -> & ->)| ->]; intros [= <- <-].
    + split_and!; try done; [by exists [APDUU TESTFR_CON]|by left].
    + split_and!; try done; [exists []; by rewrite app_nil_r|by right].
  - unfold assign. intros [= <- <-].
    split_and!; try done; [exists []; by rewrite app_nil_r|by left].
Qed.

Lemma apduu_leaves_bookkeeping_witness :
  _process_apduu STOPDT_ACT started_server
    = (Ok tt, exec (_process_apduu STOPDT_ACT) started_server)
  /\ _rsn (exec (_process_apduu STOPDT_ACT) started_server)
       = _rsn started_server.
Proof.
  assert (_process_apduu STOPDT_ACT started_server
          = (Ok tt, exec (_process_apduu STOPDT_ACT) started_server))
    as Hrun by reflexivity.
  split; [exact Hrun|].
  destruct (apduu_leaves_bookkeeping _ _ _ _ Hrun) as (_ & Hrsn & _).
  exact Hrsn.
Defined.

(** X7. The wait for [U(STARTDT_CON)], whatever arrives and however it
    ends, neither closes nor reopens the stream and writes nothing but
    [U(TESTFR_CON)] frames; on an open stream there is one for each
    [U(TESTFR_ACT)] it has read. *)
Theorem wait_startdt_con_writes (timeout : Q)
    (arrivals : list (Q * read_event)) (conn conn' : tcp_conn)
    (r : result unit) :
  _wait_startdt_con timeout arrivals conn = (r, conn') ->
  is_open conn' = is_open conn
  /\ exists n,
       written conn' = written conn ++ replicate n (APDUU TESTFR_CON)
       /\ (n <= length arrivals)%nat.
Proof.
  revert conn. induction arrivals as [|[at_time ev] arrivals IH]; intros conn.
  - intros [= <- <-]. split; [done|]. exists 0%nat. by rewrite app_nil_r.
  - cbn [_wait_startdt_con].
    assert (is_open conn = is_open conn
            /\ exists n,
                 written conn = written conn ++ replicate n (APDUU TESTFR_CON)
                 /\ (n <= length ((at_time, ev) :: arrivals))%nat) as Hstay.
    { split; [done|]. exists 0%nat. rewrite app_nil_r. split; [done|].
      cbn [length]. lia. }
    assert (forall c0, _wait_startdt_con timeout arrivals c0 = (r, conn') ->
              is_open c0 = is_open conn -> written c0 = written conn ->
              is_open conn' = is_open conn
              /\ exists n,
                   written conn'
                     = written conn ++ replicate n (APDUU TESTFR_CON)
                   /\ (n <= length ((at_time, ev) :: arrivals))%nat)
      as Hnext.
    { intros c0 Hrun Ho Hw. destruct (IH _ Hrun) as (Ho' & n & Hw' & Hn).
      split; [congruence|]. exists n. rewrite Hw', Hw. split; [done|].
      cbn [length]. lia. }
    destruct (Qle_bool timeout at_time); [by intros [= <- <-]|].
    destruct ev as [[ssn rsn data|rsn|[]]|e];
      try (by intros [= <- <-]); try (intros Hrun; by apply (Hnext conn)).
    unfold _write_apdu, tcp_write.
    destruct (is_open conn) eqn:Ho;
      [|intros [= <- <-]; split; [done|apply Hstay]].
    intros Hrun. destruct (IH _ Hrun) as (Ho' & n & Hw' & Hn).
    split; [by rewrite Ho'|]. exists (S n).
    rewrite Hw'. cbn [written replicate length].
    rewrite <- app_assoc. split; [done|]. lia.
Qed.

Lemma wait_startdt_con_writes_witness :
  let arrivals := [((1 # 1)%Q, Frame (APDUU TESTFR_ACT));
                   ((2 # 1)%Q, Frame (APDUS 0))] in
  _wait_startdt_con (15 # 1) arrivals tcp_connect
    = (Raise TimeoutError, mk_tcp true [APDUU TESTFR_CON])
  /\ is_open (mk_tcp true [APDUU TESTFR_CON]) = is_open tcp_connect.
Proof.
  intros arrivals.
  assert (_wait_startdt_con (15 # 1) arrivals tcp_connect
          = (Raise TimeoutError, mk_tcp true [APDUU TESTFR_CON])) as Hrun
    by reflexivity.
  split; [exact Hrun|].
  exact (proj1 (wait_startdt_con_writes _ _ _ _ _ Hrun)).
Defined.

(** ** Distances round the ring *)

Section Ring.

Lemma mod_distance_range a x : 0 <= mod_distance a x < 0x8000.
Proof. unfold mod_distance. apply Z.mod_pos_bound. lia. Qed.

Lemma mod_distance_same a : mod_distance a a = 0.
Proof. unfold mod_distance. by rewrite Z.sub_diag. Qed.

Lemma mod_distance_zero a x :
  seq15 a -> seq15 x -> mod_distance a x = 0 -> x = a.
Proof.
  unfold seq15, mod_distance. intros Ha Hx H.
  apply Z.mod_divide in H; [|lia]. destruct H as [q Hq]. lia.
Qed.

Lemma mod_distance_inj a x y :
  seq15 a -> seq15 x -> seq15 y ->
  mod_distance a x = mod_distance a y -> x = y.
Proof.
  unfold seq15, mod_distance. intros Ha Hx Hy H.
  assert ((x - y) mod 0x8000 = 0) as H0.
  { replace (x - y) with ((x - a) - (y - a)) by lia.
    rewrite Zminus_mod, H, Z.sub_diag. done. }
  apply Z.mod_divide in H0; [|lia]. destruct H0 as [q Hq]. lia.
Qed.

Lemma mod_distance_succ a s :
  seq15 a -> seq15 s -> mod_distance a s < 0x7FFF ->
  mod_distance a ((s + 1) mod 0x8000) = mod_distance a s + 1.
Proof.
  unfold mod_distance. intros Ha Hs Hd.
  rewrite Zminus_mod_idemp_l.
  replace (s + 1 - a) with ((s - a) + 1) by lia.
  rewrite Zplus_mod, (Z.mod_small 1) by lia.
  apply Z.mod_small.
  pose proof (Z.mod_pos_bound (s - a) 0x8000 ltac:(lia)). lia.
Qed.

(** Distances from [r] in terms of distances from [a]. *)
Lemma mod_distance_shift a r x :
  mod_distance r x
    = (mod_distance a x - mod_distance a r) mod 0x8000.
Proof.
  unfold mod_distance. rewrite <- Zminus_mod. f_equal. lia.
Qed.

Lemma mod_interval_length a s :
  length (mod_interval a s) = Z.to_nat (mod_distance a s).
Proof. unfold mod_interval. by rewrite length_fmap, length_seqZ. Qed.

Lemma mod_interval_NoDup a s : seq15 a -> NoDup (mod_interval a s).
Proof.
  intros Ha. unfold mod_interval.
  apply NoDup_fmap_2_strong; [|apply NoDup_seqZ].
  intros i j Hi Hj Heq. apply elem_of_seqZ in Hi, Hj.
  pose proof (Z.mod_pos_bound (s - a) 0x8000 ltac:(lia)).
  assert ((i - j) mod 0x8000 = 0) as H0.
  { replace (i - j) with ((a + i) - (a + j)) by lia.
    rewrite Zminus_mod, Heq, Z.sub_diag. done. }
  apply Z.mod_divide in H0; [|lia]. destruct H0 as [q Hq]. lia.
Qed.

End Ring.

(** ** The bookkeeping of outstanding frames *)

Section Outstanding.

(** The shape of the state after a successful ack-advance. *)
Lemma set_ack_ok_shape r c c' :
  _set_ack r c = (Ok tt, c') ->
  (forall x, x ∈ acked_ssns (_ack c) r ->
     is_Some (_waiting_ack_handles c !! x))
  /\ exists W T,
       c' = upd_cv_notified
              (upd_ack (upd_loop_timers (upd_waiting_ack_handles c W) T) r)
              (S (cv_notified c))
       /\ (forall x, W !! x =
             if decide (x ∈ acked_ssns (_ack c) r) then None
             else _waiting_ack_handles c !! x).
Proof.
  unfold _set_ack. rewrite bind_self.
  destruct (ack_each (acked_ssns (_ack c) r) c) as [[[]|e] c1] eqn:Hrun.
  2:{ by rewrite (bind_raise _ _ _ _ _ Hrun). }
  rewrite (bind_ok _ _ _ _ _ Hrun). rewrite bind_assign.
  unfold notify_all, assign. intros [= <-].
  assert (forall x, x ∈ acked_ssns (_ack c) r ->
            is_Some (_waiting_ack_handles c !! x)) as Hall.
  { intros y Hy. by eapply ack_each_ok_inv. }
  split; [done|].
  destruct (ack_each_ok _ c (acked_ssns_NoDup (_ack c) r) Hall)
    as (W & T & Hrun' & HW & HT).
  rewrite Hrun' in Hrun. injection Hrun as <-.
  by exists W, T.
Qed.

Lemma outstanding_elem c x :
  outstanding_ok c ->
  is_Some (_waiting_ack_handles c !! x)
  <-> seq15 x /\ mod_distance (_ack c) x < mod_distance (_ack c) (_ssn c).
Proof.
  intros (Ha & Hs & Hdom).
  rewrite <- elem_of_dom, Hdom, elem_of_list_to_set.
  by apply elem_of_mod_interval.
Qed.

Lemma outstanding_size c :
  outstanding_ok c ->
  Z.of_nat (size (_waiting_ack_handles c))
    = mod_distance (_ack c) (_ssn c).
Proof.
  intros (Ha & Hs & Hdom).
  rewrite <- size_dom, Hdom.
  rewrite size_list_to_set by (by apply mod_interval_NoDup).
  rewrite mod_interval_length, Z2Nat.id; [done|].
  apply mod_distance_range.
Qed.

Lemma outstanding_guard c :
  outstanding_ok c -> _waiting_ack_handles c !! _ssn c = None.
Proof.
  intros Hok. apply eq_None_not_Some. rewrite (outstanding_elem c _ Hok). lia.
Qed.

Lemma outstanding_after_ack c r c' :
  outstanding_ok c -> seq15 r -> _set_ack r c = (Ok tt, c') ->
  mod_distance (_ack c) r <= mod_distance (_ack c) (_ssn c)
  /\ outstanding_ok c'.
Proof.
  intros Hok Hr Hset. pose proof Hok as (Ha & Hs & Hdom).
  pose proof (outstanding_guard c Hok) as Hguard.
  destruct (set_ack_ok_shape r c c' Hset) as (Hall & W & T & -> & HW).
  rewrite (acked_ssns_mod_interval _ _ Ha Hr) in Hall, HW.
  assert (mod_distance (_ack c) r <= mod_distance (_ack c) (_ssn c))
    as Hin.
  { destruct (Z.le_gt_cases (mod_distance (_ack c) r)
                (mod_distance (_ack c) (_ssn c))) as [|Hgt]; [done|].
    assert (is_Some (_waiting_ack_handles c !! _ssn c)) as [h Hh].
    { apply Hall. apply elem_of_mod_interval; [done|]. split; [done|lia]. }
    congruence. }
  split; [done|]. split; [done|]. split; [done|].
  cbn [_ack _ssn _waiting_ack_handles upd_cv_notified upd_ack
       upd_loop_timers upd_waiting_ack_handles].
  apply set_eq. intros x.
  rewrite elem_of_dom, HW, elem_of_list_to_set.
  rewrite (elem_of_mod_interval r _ x Hr).
  pose proof (mod_distance_range (_ack c) r).
  pose proof (mod_distance_range (_ack c) x).
  pose proof (mod_distance_range (_ack c) (_ssn c)).
  rewrite (mod_distance_shift (_ack c) r x).
  rewrite (mod_distance_shift (_ack c) r (_ssn c)).
  rewrite (Z.mod_small (mod_distance (_ack c) (_ssn c) - _)) by lia.
  case_decide as Hx.
  + apply (elem_of_mod_interval _ _ _ Ha) in Hx as [Hx Hd].
    split; [by intros [? ?]|]. intros [_ Hlt].
    exfalso. rewrite <- (Z_mod_plus_full _ 1), Z.mod_small in Hlt; lia.
  + rewrite (elem_of_mod_interval _ _ _ Ha) in Hx.
    rewrite (outstanding_elem c x Hok).
    assert (seq15 x ->
            mod_distance (_ack c) r <= mod_distance (_ack c) x) as Hle.
    { intros Hx'.
      destruct (Z.le_gt_cases (mod_distance (_ack c) r)
                  (mod_distance (_ack c) x)) as [|Hgt]; [done|].
      exfalso. apply Hx. split; [done|lia]. }
    split.
    * intros [Hx' Hd]. specialize (Hle Hx'). split; [done|].
      rewrite Z.mod_small; lia.
    * intros [Hx' Hlt]. specialize (Hle Hx'). split; [done|].
      rewrite Z.mod_small in Hlt; lia.
Qed.

Lemma outstanding_after_emit c asdu :
  outstanding_ok c ->
  _send_window_size c <= 0x7FFF ->
  window_open c = true -> _is_enabled c = true ->
  is_open (_conn c) = true ->
  outstanding_ok (snd (_write_loop_wait asdu c)).
Proof.
  intros Hok Hk Hw He Ho. pose proof Hok as (Ha & Hs & Hdom).
  rewrite write_loop_wait_emits by done. cbn [snd].
  assert (mod_distance (_ack c) (_ssn c) < 0x7FFF) as Hroom.
  { rewrite <- (outstanding_size c Hok).
    unfold window_open in Hw. apply Z.ltb_lt in Hw. lia. }
  split; [done|]. split.
  { cbn [_ssn upd_ssn]. unfold seq15. apply Z.mod_pos_bound. lia. }
  cbn [_ack _ssn _waiting_ack_handles upd_ssn upd_waiting_ack_handles
       upd_loop_timers upd_supervisory_handle upd_w upd_conn].
  apply set_eq. intros x.
  rewrite dom_insert_L, elem_of_union, elem_of_singleton.
  rewrite elem_of_dom, (outstanding_elem c x Hok).
  rewrite elem_of_list_to_set, (elem_of_mod_interval _ _ _ Ha).
  rewrite (mod_distance_succ _ _ Ha Hs Hroom). split.
  + intros [->|[Hx Hd]]; (split; [done|lia]).
  + intros [Hx Hd].
    destruct (Z.eq_dec (mod_distance (_ack c) x)
                (mod_distance (_ack c) (_ssn c))) as [Heq|Hne].
    * left. by apply (mod_distance_inj (_ack c)).
    * right. split; [done|lia].
Qed.

End Outstanding.

(** X8. The bookkeeping invariant "the keys of [waiting_ack] are the
    modular interval [[ack, ssn)]" and what it gives.  In a state that
    satisfies it, the number of outstanding frames is the distance from
    [ack] to [ssn] round the ring, and [ssn] itself is not registered, so
    the writer's guard against reuse cannot trip.  A successful
    ack-advance with a 15-bit [N_R] was for a number within
    [[ack, ssn]] and leaves the invariant in place; and so does the
    emission of a frame, as long as the send window is below [2^15]. *)
Theorem outstanding_kept (c : Connection) :
  outstanding_ok c ->
  Z.of_nat (size (_waiting_ack_handles c))
    = mod_distance (_ack c) (_ssn c)
  /\ _waiting_ack_handles c !! _ssn c = None
  /\ (forall r c',
        seq15 r -> _set_ack r c = (Ok tt, c') ->
        mod_distance (_ack c) r <= mod_distance (_ack c) (_ssn c)
        /\ outstanding_ok c')
  /\ (forall asdu,
        _send_window_size c <= 0x7FFF ->
        window_open c = true -> _is_enabled c = true ->
        is_open (_conn c) = true ->
        outstanding_ok (snd (_write_loop_wait asdu c))).
Proof.
  intros Hok. split_and!.
  - by apply outstanding_size.
  - by apply outstanding_guard.
  - intros r c' Hr Hset. by apply outstanding_after_ack.
  - intros asdu Hk Hw He Ho. by apply outstanding_after_emit.
Qed.

Lemma outstanding_kept_witness :
  outstanding_ok wrapped_client
  /\ Z.of_nat (size (_waiting_ack_handles wrapped_client)) = 3
  /\ outstanding_ok (snd (_set_ack 0x7FFF wrapped_client)).
Proof.
  assert (outstanding_ok wrapped_client) as Hok.
  { split; [by unfold seq15|]. split; [by unfold seq15|].
    apply set_eq. intros x.
    rewrite elem_of_list_to_set.
    change (mod_interval (_ack wrapped_client) (_ssn wrapped_client))
      with [0x7FFE; 0x7FFF; 0].
    rewrite elem_of_dom. simpl.
    rewrite !elem_of_cons, elem_of_nil.
    rewrite !lookup_insert_is_Some, lookup_empty, is_Some_alt.
    intuition lia. }
  destruct (outstanding_kept wrapped_client Hok) as (Hsz & _ & Hack & _).
  split; [exact Hok|]. split; [exact Hsz|].
  assert (seq15 0x7FFF) as Hr by (by unfold seq15).
  exact (proj2 (Hack 0x7FFF (snd (_set_ack 0x7FFF wrapped_client)) Hr
                 eq_refl)).
Defined.

(** ** Frames out of sequence *)

(** X9. An I-frame whose [N_S] is not the expected [rsn] is never
    delivered: whatever its [N_R] and payload and whatever the state of
    the stream, the reader ends, the stream and the receive queue are
    closed, nothing is written, [rsn] stays, and the receive queue holds
    exactly the payloads it held. *)
Theorem apdui_out_of_sequence (c : Connection) (ssn rsn : Z) (data : Bytes) :
  ssn <> _rsn c ->
  exists c',
    _read_loop (Frame (APDUI ssn rsn data)) c = (Ended, c')
    /\ is_open (_conn c') = false
    /\ Queue.closed (_receive_queue c') = true
    /\ Queue.items (_receive_queue c') = Queue.items (_receive_queue c)
    /\ written (_conn c') = written (_conn c)
    /\ _rsn c' = _rsn c.
Proof.
  intros Hne.
  assert (exists e d,
            _read_loop_body (Frame (APDUI ssn rsn data)) c = (Raise e, d)
            /\ _receive_queue d = _receive_queue c
            /\ _conn d = _conn c /\ _rsn d = _rsn c)
    as (e & d & Hbody & Hq & Hc & Hr).
  { unfold _read_loop_body, _read_apdu.
    unfold bind at 1. rewrite bind_self.
    destruct (is_open (_conn c)); [|by eexists _, _].
    unfold ret at 1. unfold _process_apdui.
    destruct (set_ack_frame rsn c) as (res & W & T & Hset & _ & _).
    destruct res as [[]|e].
    - rewrite (bind_ok _ _ _ _ _ Hset), bind_self.
      cbn [_rsn upd_cv_notified upd_ack upd_loop_timers
           upd_waiting_ack_handles].
      destruct (Z.eqb_spec ssn (_rsn c)); [done|]. cbn [negb].
      by eexists _, _.
    - rewrite (bind_raise _ _ _ _ _ Hset). by eexists _, _. }
  rewrite (read_loop_raise _ _ _ _ Hbody).
  eexists. split; [reflexivity|].
  cbn. by rewrite Hq, Hc, Hr.
Qed.

Lemma apdui_out_of_sequence_witness :
  5 <> _rsn default_client
  /\ fst (_read_loop (Frame (APDUI 5 0 sample_payload)) default_client)
       = Ended.
Proof.
  assert (5 <> _rsn default_client) as Hne by (simpl; lia).
  split; [exact Hne|].
  destruct (apdui_out_of_sequence default_client 5 0 sample_payload Hne)
    as (c' & Hrun & _).
  by rewrite Hrun.
Defined.

(** ** Order of transmission *)

Section SendOrder.




End SendOrder.



(** ** Order of delivery *)

Section ReceiveOrder.

Lemma set_ack_same c :
  _set_ack (_ack c) c = (Ok tt, upd_cv_notified c (S (cv_notified c))).
Proof.
  unfold _set_ack. rewrite bind_self, acked_ssns_same.
  cbn [ack_each]. rewrite bind_ret, bind_assign.
  unfold notify_all, assign. by destruct c.
Qed.

(** The reader's turn for the I-frame it expects, the peer
    acknowledging nothing new. *)
Lemma read_loop_in_sequence c data :
  is_open (_conn c) = true ->
  Queue.closed (_receive_queue c) = false ->
  exists c',
    _read_loop (Frame (APDUI (_rsn c) (_ack c) data)) c = (Running, c')
    /\ Queue.items (_receive_queue c')
         = Queue.items (_receive_queue c)
             ++ (if nonempty data then [data] else [])
    /\ _rsn c' = (_rsn c + 1) mod 0x8000
    /\ _ack c' = _ack c
    /\ is_open (_conn c') = true
    /\ Queue.closed (_receive_queue c') = false.
Proof.
  intros Ho Hq.
  assert (exists c',
            _process_apdui (_rsn c) (_ack c) data c = (Ok tt, c')
            /\ Queue.items (_receive_queue c')
                 = Queue.items (_receive_queue c)
                     ++ (if nonempty data then [data] else [])
            /\ _rsn c' = (_rsn c + 1) mod 0x8000
            /\ _ack c' = _ack c
            /\ is_open (_conn c') = true
            /\ Queue.closed (_receive_queue c') = false)
    as (c' & Hrun & Hfacts).
  { unfold _process_apdui.
    rewrite (bind_ok _ _ _ _ _ (set_ack_same c)), bind_self.
    cbn [_rsn upd_cv_notified]. rewrite Z.eqb_refl. cbn [negb].
    rewrite bind_assign, (bind_ok _ _ _ _ _ (start_supervisory_eq _)).
    match goal with |- context [armed ?d] =>
      destruct (armed_fields d)
        as (Ac & Aq & Ar & Aw & Ak & Aa & AW & An & As & Ae & Asq & Af);
      set (d1 := armed d) in *; clearbody d1
    end.
    simpl in Ac, Aq, Ar, Aw, Ak, Aa.
    assert ((if nonempty data then receive_queue_put data else ret tt) d1
            = (Ok tt,
               if nonempty data
               then upd_receive_queue d1
                      (Queue.mk (Queue.items (_receive_queue d1) ++ [data])
                         false)
               else d1)) as Hput.
    { destruct (nonempty data); [|done].
      apply receive_queue_put_open. by rewrite Aq. }
    rewrite (bind_ok _ _ _ _ _ Hput). clear Hput.
    rewrite bind_assign, bind_self.
    destruct (nonempty data);
      cbn [_receive_window_size _w _rsn upd_w upd_receive_queue];
      match goal with |- context [if ?b then _ else ret tt] =>
        destruct b end; cbv beta iota.
    1,3: match goal with |- context [bind (write_self ?a) _ ?d] =>
           let Ho' := fresh "Ho" in
           assert (is_open (_conn d) = true) as Ho'
             by (cbn [_conn upd_w upd_receive_queue]; by rewrite Ac);
           rewrite (bind_ok _ _ _ _ _ (write_self_open a d Ho'));
           clear Ho'
         end;
         rewrite bind_assign, stop_supervisory_eq;
         match goal with |- context [stopped ?d] =>
           destruct (stopped_fields d)
             as (Sc & Sq & Sr & Sw & Sa & SW & Sn & Ss & Se & Ssq & Sf
                 & Sh & ST);
           set (d' := stopped d) in *; clearbody d';
           simpl in Sc, Sq, Sr, Sa
         end;
         (eexists; split; [reflexivity|]);
         rewrite ?Sc, ?Sq, ?Sr, ?Sa; simpl;
         rewrite ?Aq, ?Ar, ?Aa, ?app_nil_r; by split_and!.
    all: unfold ret; (eexists; split; [reflexivity|]); simpl;
         rewrite ?Ac, ?Aq, ?Ar, ?Aa, ?Ho, ?Hq, ?app_nil_r; by split_and!. }
  exists c'. split; [|exact Hfacts].
  unfold _read_loop, _read_loop_body, _read_apdu.
  unfold bind at 1. rewrite bind_self, Ho. unfold ret at 1.
  by rewrite Hrun.
Qed.

(** Successive [receive] calls take the queued payloads in order. *)
Lemma receive_n_items items : forall c,
  Queue.items (_receive_queue c) = items ->
  fst (receive_n (length items) c) = (fun p => Ready (Ok p)) <$> items.
Proof.
  induction items as [|p items IH]; intros c Hi; [done|].
  cbn [length receive_n]. unfold receive at 1, Queue.get. rewrite Hi.
  specialize (IH (upd_receive_queue c
                    (Queue.mk items (Queue.closed (_receive_queue c))))
                 eq_refl).
  destruct (receive_n (length items) _) as [rs c2].
  cbn [fst] in *. by rewrite IH.
Qed.

End ReceiveOrder.

(** X11. Payloads are delivered in the order of the frames.  On an open
    stream and an open receive queue, a run of I-frames numbered
    consecutively from the expected [rsn], the peer acknowledging nothing
    new, is accepted frame by frame: the reader is left running, the
    non-empty payloads are appended to the receive queue in the order of
    the frames (empty ones are skipped), and successive [receive] calls
    return what was queued before and then these payloads, in that
    order. *)
Theorem reader_keeps_order (datas : list Bytes) : forall c : Connection,
  is_open (_conn c) = true ->
  Queue.closed (_receive_queue c) = false ->
  seq15 (_rsn c) ->
  let c' := read_all (numbered (_rsn c) (_ack c) datas) c in
  let delivered :=
    Queue.items (_receive_queue c) ++ List.filter nonempty datas in
  Queue.items (_receive_queue c') = delivered
  /\ _rsn c' = (_rsn c + Z.of_nat (length datas)) mod 0x8000
  /\ is_open (_conn c') = true
  /\ fst (receive_n (length delivered) c')
       = (fun p => Ready (Ok p)) <$> delivered.
Proof.
  assert (forall c, is_open (_conn c) = true ->
            Queue.closed (_receive_queue c) = false -> seq15 (_rsn c) ->
            let c' := read_all (numbered (_rsn c) (_ack c) datas) c in
            Queue.items (_receive_queue c')
              = Queue.items (_receive_queue c) ++ List.filter nonempty datas
            /\ _rsn c' = (_rsn c + Z.of_nat (length datas)) mod 0x8000
            /\ is_open (_conn c') = true) as Hrun.
  { induction datas as [|data datas IH]; intros c Ho Hq Hr.
    - cbv zeta. unfold read_all.
      cbn [numbered foldl List.filter length]. change (Z.of_nat 0) with 0.
      by rewrite app_nil_r, Z.add_0_r, Z.mod_small by done.
    - cbv zeta. unfold read_all. cbn [numbered foldl].
      destruct (read_loop_in_sequence c data Ho Hq)
        as (c1 & -> & Hitems & Hrsn & Hack & Ho1 & Hq1).
      cbn [snd]. fold (read_all (numbered ((_rsn c + 1) mod 0x8000)
                                   (_ack c) datas) c1).
      rewrite <- Hrsn, <- Hack.
      destruct (IH c1 Ho1 Hq1) as (Hitems' & Hrsn' & Ho').
      { rewrite Hrsn. unfold seq15. apply Z.mod_pos_bound. lia. }
      split_and!.
      + rewrite Hitems', Hitems, <- app_assoc. cbn [List.filter].
        by destruct (nonempty data).
      + rewrite Hrsn', Hrsn, Zplus_mod_idemp_l. f_equal.
        cbn [length]. lia.
      + exact Ho'. }
  intros c Ho Hq Hr c' delivered.
  destruct (Hrun c Ho Hq Hr) as (Hitems & Hrsn & Ho').
  fold c' in Hitems, Hrsn, Ho'. fold delivered in Hitems.
  split_and!; try done.
  rewrite <- Hitems. by apply receive_n_items.
Qed.

Lemma reader_keeps_order_witness :
  is_open (_conn default_client) = true
  /\ Queue.closed (_receive_queue default_client) = false
  /\ seq15 (_rsn default_client)
  /\ Queue.items
       (_receive_queue
          (read_all (numbered 0 0 [[Byte.x01]; []; [Byte.x02]])
             default_client))
     = [[Byte.x01]; [Byte.x02]].
Proof.
  assert (seq15 (_rsn default_client)) as Hr by (by unfold seq15).
  split; [reflexivity|]. split; [reflexivity|]. split; [exact Hr|].
  destruct (reader_keeps_order [[Byte.x01]; []; [Byte.x02]] default_client
              eq_refl eq_refl Hr) as (Hitems & _).
  exact Hitems.
Defined.
